(** * Portfolio.jsx: a shallow embedding of the interactive parts of the page

    The development follows [src/app/components/Portfolio.jsx]:

    - [StatCounter]: the interval-driven counter of the "about" section;
    - [Reveal]: the [useReveal] hook (one-way visibility flag);
    - [PageShell]: the [Portfolio] component: section tracker and contact form;
    - [Scene]: the [ThreeScene] effect: per-frame animation, connector lines,
      mount and cleanup.

    JavaScript numbers that only ever hold integers are modelled as [Z];
    the numbers of the 3D scene are modelled as real numbers ([R], rounding of
    IEEE doubles is not modelled); intersection ratios are rationals ([Q]). *)

From Stdlib Require Import String ZArith QArith Reals List Bool Lia Lra Arith.
Import ListNotations.
Close Scope Q_scope.

(* ================================================================== *)
(** ** StatCounter *)
(* ================================================================== *)

Module StatCounter.
Local Open Scope Z_scope.

(** [Math.ceil(a / b)] on integers, for a positive divisor. *)
Definition ceil_div (a b : Z) : Z := - ((- a) / b).

(** [const step = Math.max(1, Math.ceil(value / 40));] *)
Definition step (value : Z) : Z := Z.max 1 (ceil_div value 40).

(** The component state together with the closure of the effect:
    [count] is the React state shown on the page, [start] the local
    accumulator of the effect, [timer] tells whether the interval created by
    [setInterval] is still registered. *)
Record counter := mkCounter { count : Z; start : Z; timer : bool }.

(** [useState(0)]; no effect has run yet. *)
Definition unseen : counter := mkCounter 0 0 false.

(** The effect body, run when [visible] (or [value]) changes:
    [if (!visible) return; let start = 0; ... setInterval(..., 30)]. *)
Definition effect (visible : bool) (c : counter) : counter :=
  if visible then mkCounter (count c) 0 true else c.

(** One firing of the interval callback (every 30ms while registered):
    [start += step; if (start >= value) { setCount(value); clearInterval(timer); }
     else setCount(start);] *)
Definition tick (value : Z) (c : counter) : counter :=
  if timer c then
    let start' := start c + step value in
    if start' >=? value then mkCounter value start' false
    else mkCounter start' start' true
  else c.

(** [n] firings of the interval after the container became visible. *)
Definition ticks (value : Z) (n : nat) : counter :=
  Nat.iter n (tick value) (effect true unseen).

(** Number of the firing on which the interval is cleared. *)
Definition last_tick (value : Z) : nat :=
  Z.to_nat (Z.max 1 (ceil_div value (step value))).

End StatCounter.

(** [theme]: ["dark"] or ["light"]. *)
Inductive Theme := dark | light.

(* ================================================================== *)
(** ** Intersection observer entries *)
(* ================================================================== *)

(** A DOM element, as far as the page reads it: its [id] attribute. *)
Record Element := mkElement { id : string }.

(** The fields of an [IntersectionObserverEntry] the page reads. *)
Record Entry := mkEntry {
  target : Element;
  isIntersecting : bool;
  intersectionRatio : Q
}.

(* ================================================================== *)
(** ** useReveal *)
(* ================================================================== *)

Module Reveal.

(** [const [visible, setVisible] = useState(false);] *)
Definition mounted : bool := false.

(** The observer callback [([e]) => { if (e.isIntersecting) setVisible(true); }]
    applied to one delivery [entries]; the result is the flag after it.
    Only the first entry of the delivery is read.  On an empty delivery
    [e] is [undefined] and the callback throws before any update. *)
Definition callback (entries : list Entry) (visible : bool) : bool :=
  match entries with
  | e :: _ => if isIntersecting e then true else visible
  | [] => visible
  end.

(** The test the callback applies to a delivery. *)
Definition qualifies (entries : list Entry) : bool :=
  match entries with
  | e :: _ => isIntersecting e
  | [] => false
  end.

(** The flag after a sequence of deliveries. *)
Definition deliver (visible : bool) (evs : list (list Entry)) : bool :=
  fold_left (fun v entries => callback entries v) evs visible.

(** The flag after each delivery of a sequence, in order. *)
Fixpoint trace (visible : bool) (evs : list (list Entry)) : list bool :=
  match evs with
  | [] => []
  | entries :: evs' =>
      let v := callback entries visible in v :: trace v evs'
  end.

(** Number of false-to-true steps along a run that starts at [v]. *)
Fixpoint rises (v : bool) (tr : list bool) : nat :=
  match tr with
  | [] => 0
  | w :: tr' => (if negb v && w then 1 else 0) + rises w tr'
  end.

(** Number of true-to-false steps along a run that starts at [v]. *)
Fixpoint falls (v : bool) (tr : list bool) : nat :=
  match tr with
  | [] => 0
  | w :: tr' => (if v && negb w then 1 else 0) + falls w tr'
  end.

End Reveal.

(* ================================================================== *)
(** ** Portfolio: section tracker and contact form *)
(* ================================================================== *)

Module PageShell.
Local Open Scope string_scope.
Local Open Scope Z_scope.

(** [formStatus]: [idle | sending | success | error]. *)
Inductive Status := idle | sending | success | error.

Record FormData := mkForm { name : string; email : string; message : string }.

(** Body of the POST sent to the relay. *)
Record Request := mkRequest {
  access_key : string;
  req_name : string;
  req_email : string;
  req_message : string;
  subject : string;
  from_name : string
}.

(** The value of the [success] field of the parsed reply. *)
Inductive JsValue :=
| JUndefined
| JNull
| JBool (b : bool)
| JNumber (n : Z)
| JString (s : string).

(** JavaScript truthiness, as applied by [if (data.success)]. *)
Definition truthy (v : JsValue) : bool :=
  match v with
  | JUndefined | JNull => false
  | JBool b => b
  | JNumber n => negb (n =? 0)
  | JString s => negb (String.eqb s EmptyString)
  end.

(** Outcome of [await fetch(...)] followed by [await res.json()]: either a
    parsed body, of which only [success] is read, or a rejection of one of
    the two promises (caught by the [catch] block). *)
Inductive Reply :=
| Json (success_field : JsValue)
| Rejected.

(** The React state of [Portfolio] together with what it did to its
    environment: requests issued with [fetch], pending [setTimeout]
    callbacks (every one of them is [() => setFormStatus("idle")], so a
    timeout is represented by the time at which it is due), alerts shown, the
    value written to local storage, and the current time in ms. *)
Record Page := mkPage {
  activeSection : string;
  formData : FormData;
  formStatus : Status;
  theme : Theme;
  requests : list Request;
  timeouts : list Z;
  alerts : list string;
  stored_theme : option Theme;
  now : Z
}.

(** [useState("home")], [useState] of a form with three empty strings,
    [useState("dark")], [useState("idle")]. *)
Definition initial : Page :=
  mkPage "home" (mkForm EmptyString EmptyString EmptyString) idle dark [] [] [] None 0.

Definition setActiveSection (v : string) (p : Page) : Page :=
  mkPage v (formData p) (formStatus p) (theme p)
         (requests p) (timeouts p) (alerts p) (stored_theme p) (now p).

Definition setFormData (v : FormData) (p : Page) : Page :=
  mkPage (activeSection p) v (formStatus p) (theme p)
         (requests p) (timeouts p) (alerts p) (stored_theme p) (now p).

Definition setFormStatus (v : Status) (p : Page) : Page :=
  mkPage (activeSection p) (formData p) v (theme p)
         (requests p) (timeouts p) (alerts p) (stored_theme p) (now p).

(** [setTimeout(() => setFormStatus("idle"), ms)] *)
Definition setTimeout_idle (ms : Z) (p : Page) : Page :=
  mkPage (activeSection p) (formData p) (formStatus p) (theme p)
         (requests p) (timeouts p ++ [now p + ms]) (alerts p)
         (stored_theme p) (now p).

Definition fetch (r : Request) (p : Page) : Page :=
  mkPage (activeSection p) (formData p) (formStatus p) (theme p)
         (requests p ++ [r]) (timeouts p) (alerts p) (stored_theme p) (now p).

Definition alert (msg : string) (p : Page) : Page :=
  mkPage (activeSection p) (formData p) (formStatus p) (theme p)
         (requests p) (timeouts p) (alerts p ++ [msg]) (stored_theme p) (now p).

(** *** Section tracker *)

(** [const sections = ["home", "about", "skills", "experience", "projects",
    "contact"];] *)
Definition sections : list string :=
  ["home"; "about"; "skills"; "experience"; "projects"; "contact"].

(** [document.getElementById(id)] over the elements of the document. *)
Definition getElementById (document : list Element) (i : string)
  : option Element :=
  find (fun el => String.eqb (id el) i) document.

(** [sections.forEach((id) => { const el = document.getElementById(id);
    if (el) obs.observe(el); });]: the observed elements. *)
Definition observed (document : list Element) : list Element :=
  flat_map (fun i => match getElementById document i with
                     | Some el => [el]
                     | None => []
                     end) sections.

(** [e.isIntersecting && e.intersectionRatio > 0.3] *)
Definition over_threshold (e : Entry) : bool :=
  isIntersecting e && negb (Qle_bool (intersectionRatio e) (3 # 10)).

(** The observer callback:
    [(entries) => { entries.forEach((e) => { if (e.isIntersecting &&
       e.intersectionRatio > 0.3) setActiveSection(e.target.id); }); }] *)
Definition onIntersect (entries : list Entry) (p : Page) : Page :=
  fold_left (fun p e => if over_threshold e then setActiveSection (id (target e)) p
                        else p)
            entries p.

(** *** Contact form *)

Inductive Field := FName | FEmail | FMessage.

(** [onChange={(e) => setFormData({ ...formData, [field]: e.target.value })}] *)
Definition onChange (f : Field) (v : string) (p : Page) : Page :=
  let d := formData p in
  setFormData
    match f with
    | FName => mkForm v (email d) (message d)
    | FEmail => mkForm (name d) v (message d)
    | FMessage => mkForm (name d) (email d) v
    end p.

(** [!s] on a string. *)
Definition falsy (s : string) : bool := String.eqb s EmptyString.

Definition payload (d : FormData) : Request :=
  mkRequest "e2afb174-0e7e-458d-aa67-dc7d720a1bcd"
            (name d) (email d) (message d)
            ("Portfolio Contact from " ++ name d)
            "Portfolio Website".

(** [handleSubmit] up to its first [await]: the presence check, then
    [setFormStatus("sending")] and the call of [fetch]. *)
Definition handleSubmit (p : Page) : Page :=
  let d := formData p in
  if falsy (name d) || falsy (email d) || falsy (message d)
  then alert "Please fill in all fields." p
  else fetch (payload d) (setFormStatus sending p).

(** [handleSubmit] from the settling of the request on. *)
Definition handleReply (r : Reply) (p : Page) : Page :=
  match r with
  | Json data =>
      if truthy data
      then setTimeout_idle 5000
             (setFormData (mkForm EmptyString EmptyString EmptyString) (setFormStatus success p))
      else setTimeout_idle 4000 (setFormStatus error p)
  | Rejected => setTimeout_idle 4000 (setFormStatus error p)
  end.

(** The settlings that take the [else] branch or the [catch] block. *)
Definition failure (r : Reply) : bool :=
  match r with
  | Json data => negb (truthy data)
  | Rejected => true
  end.

(** The clock advances by [ms]: every timeout due by then fires and is
    removed. *)
Definition advance (ms : Z) (p : Page) : Page :=
  let t := now p + ms in
  let due := filter (fun d => d <=? t) (timeouts p) in
  let rest := filter (fun d => negb (d <=? t)) (timeouts p) in
  mkPage (activeSection p) (formData p)
         (match due with [] => formStatus p | _ :: _ => idle end)
         (theme p) (requests p) rest (alerts p) (stored_theme p) t.

(** [toggleTheme] *)
Definition toggleTheme (p : Page) : Page :=
  let newTheme := match theme p with dark => light | light => dark end in
  mkPage (activeSection p) (formData p) (formStatus p) newTheme
         (requests p) (timeouts p) (alerts p) (Some newTheme) (now p).

(** What can happen to the mounted page. *)
Inductive Event :=
| Intersect (entries : list Entry)
| Change (f : Field) (v : string)
| Submit
| Settle (r : Reply)
| Elapse (ms : Z)
| Toggle.

Definition handle (p : Page) (ev : Event) : Page :=
  match ev with
  | Intersect entries => onIntersect entries p
  | Change f v => onChange f v p
  | Submit => handleSubmit p
  | Settle r => handleReply r p
  | Elapse ms => advance ms p
  | Toggle => toggleTheme p
  end.

(** The observer only reports elements it observes. *)
Definition delivered (document : list Element) (ev : Event) : Prop :=
  match ev with
  | Intersect entries => Forall (fun e => In (target e) (observed document)) entries
  | _ => True
  end.

(** States of the page reachable from its initial state. *)
Inductive reachable (document : list Element) : Page -> Prop :=
| reach_initial : reachable document initial
| reach_step p ev :
    reachable document p -> delivered document ev ->
    reachable document (handle p ev).

End PageShell.

(* ================================================================== *)
(** ** ThreeScene *)
(* ================================================================== *)

Module Scene.
Local Open Scope string_scope.
Local Open Scope R_scope.

(** *** Data *)

Record Vector3 := vec3 { vx : R; vy : R; vz : R }.

(** [Vector3.distanceTo] of three.js: the Euclidean distance. *)
Definition distanceTo (a b : Vector3) : R :=
  sqrt ((vx a - vx b) * (vx a - vx b) + (vy a - vy b) * (vy a - vy b)
        + (vz a - vz b) * (vz a - vz b)).

(** Objects of three.js that own graphics resources until their [dispose]
    method is called: geometries, materials and the renderer.  The heap
    lists them in allocation order; an object is named by its index. *)
Inductive ResourceKind := Geometry | Material | Renderer.

Record Resource := mkResource {
  kind : ResourceKind;
  label : string;
  disposed : bool
}.

Definition Heap := list Resource.

Definition fresh (k : ResourceKind) (l : string) : Resource :=
  mkResource k l false.

(** A resource once released. *)
Definition released (r : Resource) : Resource :=
  mkResource (kind r) (label r) true.

(** [obj.dispose()] *)
Fixpoint dispose (i : nat) (h : Heap) : Heap :=
  match h, i with
  | [], _ => []
  | r :: h', O => released r :: h'
  | r :: h', S i' => r :: dispose i' h'
  end.

(** The resources not released so far. *)
Definition retained (h : Heap) : list Resource :=
  filter (fun r => negb (disposed r)) h.

(** A mesh: transform, and the geometry and material it was built from. *)
Record Mesh := mkMesh {
  position : Vector3;
  rotation : Vector3;
  geometry : nat;
  material : nat
}.

(** Entry of [rings]. *)
Record Ring := mkRing {
  ring_mesh : Mesh;
  ring_uTime : R;
  baseRotation : R * R
}.

(** Entry of [nodes]. *)
Record Node := mkNode {
  node_mesh : Mesh;
  angle : R;
  radius : R;
  yOffset : R;
  speed : R;
  ySpeed : R
}.

(** Entry of [floatingShapes]. *)
Record Shape := mkShape {
  shape_mesh : Mesh;
  initialPos : Vector3;
  rotSpeed : R * R;
  floatSpeed : R;
  floatAmp : R
}.

(** A [THREE.Line] of [connectionLines]: its own geometry, holding a copy of
    the two end points, and its own clone of [lineMaterial], holding the
    opacity.  A line is identified by its geometry. *)
Record Line := mkLine {
  line_geometry : nat;
  line_material : nat;
  line_from : Vector3;
  line_to : Vector3;
  opacity : R
}.

(** Attributes of one particle, uploaded once. *)
Record Particle := mkParticle {
  particle_position : Vector3;
  aScale : R;
  aRandomness : R
}.

(** [scene.children]: the lights, meshes and points added at mount, and the
    connector lines. *)
Inductive Child :=
| Fixed (name : string)
| Segment (l : Line).

(** The variables of one run of the effect of [ThreeScene]. *)
Record Instance := mkInstance {
  isDark : bool;
  renderer : nat;
  children : list Child;
  central_uTime : R;
  centralSphere : Mesh;
  core : Mesh;
  rings : list Ring;
  nodes : list Node;
  lineMaterial : nat;
  connectionLines : list Line;
  particles : list Particle;
  particle_uTime : R;
  floatingShapes : list Shape;
  pointLight1 : Vector3;
  pointLight2 : Vector3;
  pointLight3 : Vector3;
  camera : Vector3;
  mouse : R * R;
  targetMouse : R * R;
  animId : option nat
}.

(** Listeners on [window]. *)
Inductive Handler :=
| handleMouseMove (owner : nat)
| handleResize (owner : nat)
| cursorHandler.

Definition Handler_eqb (a b : Handler) : bool :=
  match a, b with
  | handleMouseMove i, handleMouseMove j => Nat.eqb i j
  | handleResize i, handleResize j => Nat.eqb i j
  | cursorHandler, cursorHandler => true
  | _, _ => false
  end.

(** What the effect touches outside its own variables. *)
Record Env := mkEnv {
  listeners : list (string * Handler);
  frames : list nat;
  next_frame : nat;
  heap : Heap;
  container : list nat
}.

Definition same_listener (a b : string * Handler) : bool :=
  String.eqb (fst a) (fst b) && Handler_eqb (snd a) (snd b).

(** [window.addEventListener(type, handler)]: a listener already registered
    is not registered twice. *)
Definition addEventListener (l : string * Handler)
  (ls : list (string * Handler)) : list (string * Handler) :=
  if existsb (same_listener l) ls then ls else (ls ++ [l])%list.

(** [window.removeEventListener(type, handler)] *)
Definition removeEventListener (l : string * Handler)
  (ls : list (string * Handler)) : list (string * Handler) :=
  filter (fun l' => negb (same_listener l l')) ls.

(** [cancelAnimationFrame(id)] *)
Definition cancelAnimationFrame (i : option nat) (fs : list nat) : list nat :=
  match i with
  | Some n => filter (fun m => negb (Nat.eqb m n)) fs
  | None => fs
  end.

(** *** Connector lines *)

Definition same_line (c : Child) (l : Line) : bool :=
  match c with
  | Segment l' => Nat.eqb (line_geometry l') (line_geometry l)
  | Fixed _ => false
  end.

(** [scene.remove(line)]: the first occurrence is spliced out. *)
Fixpoint scene_remove (l : Line) (ch : list Child) : list Child :=
  match ch with
  | [] => []
  | c :: ch' => if same_line c l then ch' else c :: scene_remove l ch'
  end.

(** [0.15 * (1 - dist / 3)] *)
Definition line_opacity (dist : R) : R := 0.15 * (1 - dist / 3).

(** The body of the inner loop of [updateConnections] past its guard, on the
    scene children, [connectionLines] and the heap. *)
Definition connect (node1 node2 : Node)
  (s : list Child * list Line * Heap) : list Child * list Line * Heap :=
  let '(ch, ls, h) := s in
  let p1 := position (node_mesh node1) in
  let p2 := position (node_mesh node2) in
  let dist := distanceTo p1 p2 in
  if Rlt_dec dist 3 then
    let line := mkLine (length h) (S (length h)) p1 p2 (line_opacity dist) in
    ((ch ++ [Segment line])%list, (ls ++ [line])%list,
     (h ++ [fresh Geometry "BufferGeometry";
            fresh Material "LineBasicMaterial"])%list)
  else s.

(** [forEach((x, i) => ...)] visits the elements with their indices. *)
Definition indexed {A : Type} (l : list A) : list (nat * A) :=
  combine (seq 0 (length l)) l.

(** [nodes.forEach((node1, i) => { nodes.forEach((node2, j) => {
      if (i >= j) return; ... }); });] *)
Definition connect_all (ns : list Node)
  (s : list Child * list Line * Heap) : list Child * list Line * Heap :=
  fold_left
    (fun s '(i, node1) =>
       fold_left
         (fun s '(j, node2) =>
            if (j <=? i)%nat then s else connect node1 node2 s)
         (indexed ns) s)
    (indexed ns) s.

Definition with_lines (i : Instance) (ch : list Child) (ls : list Line)
  : Instance :=
  mkInstance (isDark i) (renderer i) ch (central_uTime i) (centralSphere i)
             (core i) (rings i) (nodes i) (lineMaterial i) ls (particles i)
             (particle_uTime i) (floatingShapes i) (pointLight1 i)
             (pointLight2 i) (pointLight3 i) (camera i) (mouse i)
             (targetMouse i) (animId i).

(** [updateConnections]:
    [connectionLines.forEach((line) => scene.remove(line));
     connectionLines.length = 0;] and then the two nested loops. *)
Definition updateConnections (i : Instance) (h : Heap) : Instance * Heap :=
  let ch0 := fold_left (fun ch l => scene_remove l ch)
                       (connectionLines i) (children i) in
  let '(ch, ls, h') := connect_all (nodes i) (ch0, [], h) in
  (with_lines i ch ls, h').

(** *** The frame *)

Definition set_rotation (m : Mesh) (r : Vector3) : Mesh :=
  mkMesh (position m) r (geometry m) (material m).

Definition set_position (m : Mesh) (p : Vector3) : Mesh :=
  mkMesh p (rotation m) (geometry m) (material m).

(** [ring.material.uniforms.uTime.value = elapsed;
     ring.mesh.rotation.z = elapsed * 0.1 * (i % 2 === 0 ? 1 : -1);] *)
Definition animate_ring (elapsed : R) (ir : nat * Ring) : Ring :=
  let '(i, ring) := ir in
  let m := ring_mesh ring in
  mkRing (set_rotation m
            (vec3 (vx (rotation m)) (vy (rotation m))
                  (elapsed * 0.1 * (if Nat.even i then 1 else -1))))
         elapsed (baseRotation ring).

(** [node.angle += node.speed * 0.01;
     node.mesh.position.x = Math.cos(node.angle) * node.radius;
     node.mesh.position.z = Math.sin(node.angle) * node.radius;
     node.mesh.position.y = node.yOffset + Math.sin(elapsed * node.ySpeed) * 0.5;
     node.mesh.rotation.x += 0.02;
     node.mesh.rotation.y += 0.03;] *)
Definition animate_node (elapsed : R) (node : Node) : Node :=
  let angle' := angle node + speed node * 0.01 in
  let m := node_mesh node in
  mkNode
    (mkMesh (vec3 (cos angle' * radius node)
                  (yOffset node + sin (elapsed * ySpeed node) * 0.5)
                  (sin angle' * radius node))
            (vec3 (vx (rotation m) + 0.02) (vy (rotation m) + 0.03)
                  (vz (rotation m)))
            (geometry m) (material m))
    angle' (radius node) (yOffset node) (speed node) (ySpeed node).

(** [shape.mesh.rotation.x += shape.rotSpeed.x;
     shape.mesh.rotation.y += shape.rotSpeed.y;
     shape.mesh.position.y = shape.initialPos[1]
        + Math.sin(elapsed * shape.floatSpeed) * shape.floatAmp;] *)
Definition animate_shape (elapsed : R) (shape : Shape) : Shape :=
  let m := shape_mesh shape in
  mkShape
    (mkMesh (vec3 (vx (position m))
                  (vy (initialPos shape)
                   + sin (elapsed * floatSpeed shape) * floatAmp shape)
                  (vz (position m)))
            (vec3 (vx (rotation m) + fst (rotSpeed shape))
                  (vy (rotation m) + snd (rotSpeed shape))
                  (vz (rotation m)))
            (geometry m) (material m))
    (initialPos shape) (rotSpeed shape) (floatSpeed shape) (floatAmp shape).

(** [Math.floor(elapsed * 10) % 3 === 0] *)
Definition connections_due (elapsed : R) : bool :=
  Z.eqb (Z.rem (Int_part (elapsed * 10)) 3) 0.

(** The assignments of [animate] to the objects of the scene, for a reading
    [elapsed] of the clock and the id [id'] of the frame just requested.
    They are gathered here ahead of [updateConnections], which reads the
    positions of the nodes and writes the lines and nothing else. *)
Definition animate_objects (elapsed : R) (id' : nat) (i : Instance)
  : Instance :=
  (* smooth mouse interpolation *)
  let mouseX := fst (mouse i) + (fst (targetMouse i) - fst (mouse i)) * 0.05 in
  let mouseY := snd (mouse i) + (snd (targetMouse i) - snd (mouse i)) * 0.05 in
  let central :=
    set_rotation (centralSphere i)
      (vec3 (elapsed * 0.05) (elapsed * 0.1) (vz (rotation (centralSphere i)))) in
  let core' :=
    set_rotation (core i)
      (vec3 (elapsed * 0.2) (- elapsed * 0.3) (vz (rotation (core i)))) in
  let rings' := map (animate_ring elapsed) (indexed (rings i)) in
  let nodes' := map (animate_node elapsed) (nodes i) in
  let shapes' := map (animate_shape elapsed) (floatingShapes i) in
  let light1 := vec3 (sin (elapsed * 0.5) * 4) (vy (pointLight1 i))
                     (cos (elapsed * 0.5) * 4) in
  let light2 := vec3 (cos (elapsed * 0.3) * 3) (vy (pointLight2 i))
                     (sin (elapsed * 0.3) * 3) in
  let camera' :=
    vec3 (vx (camera i) + (mouseX * 2 - vx (camera i)) * 0.02)
         (vy (camera i) + (mouseY * 1.5 + 1 - vy (camera i)) * 0.02)
         (vz (camera i)) in
  mkInstance (isDark i) (renderer i) (children i) elapsed central core'
             rings' nodes' (lineMaterial i) (connectionLines i)
             (particles i) elapsed shapes' light1 light2 (pointLight3 i)
             camera' (mouseX, mouseY) (targetMouse i) (Some id').

(** The body of [animate] for a reading [elapsed] of the clock:
    [animId = requestAnimationFrame(animate)], the assignments to the
    objects, and [updateConnections()] when
    [Math.floor(elapsed * 10) % 3 === 0]. *)
Definition animate (elapsed : R) (i : Instance) (e : Env) : Instance * Env :=
  let id' := next_frame e in
  let moved := animate_objects elapsed id' i in
  let '(i', h') :=
    if connections_due elapsed then updateConnections moved (heap e)
    else (moved, heap e) in
  (i', mkEnv (listeners e) (frames e ++ [id'])%list (S id') h' (container e)).

(** The browser runs the frame callback [n], if it is still requested. *)
Definition frame (elapsed : R) (n : nat) (i : Instance) (e : Env)
  : Instance * Env :=
  if existsb (Nat.eqb n) (frames e) then
    animate elapsed i
      (mkEnv (listeners e) (filter (fun m => negb (Nat.eqb m n)) (frames e))
             (next_frame e) (heap e) (container e))
  else (i, e).

(** [handleMouseMove] with the pointer at fractions [(fx, fy)] of the window:
    [targetMouseX = (e.clientX / window.innerWidth) * 2 - 1;
     targetMouseY = -(e.clientY / window.innerHeight) * 2 + 1;] *)
Definition onMouseMove (fx fy : R) (i : Instance) : Instance :=
  mkInstance (isDark i) (renderer i) (children i) (central_uTime i)
             (centralSphere i) (core i) (rings i) (nodes i) (lineMaterial i)
             (connectionLines i) (particles i) (particle_uTime i)
             (floatingShapes i) (pointLight1 i) (pointLight2 i)
             (pointLight3 i) (camera i) (mouse i)
             (fx * 2 - 1, - fy * 2 + 1) (animId i).

(** *** Mount and cleanup *)

Definition origin : Vector3 := vec3 0 0 0.

(** [ringConfigs]: radius is only used by the geometry. *)
Definition ringConfigs : list (R * R) :=
  [(PI / 6, 0); (- PI / 4, PI / 3); (PI / 3, - PI / 4)].

(** [shapeConfigs]: the [pos] of each of the six shapes. *)
Definition shapeConfigs : list (string * Vector3) :=
  [("TetrahedronGeometry", vec3 (-4) 2 (-2));
   ("OctahedronGeometry", vec3 4 (-1.5) (-1));
   ("IcosahedronGeometry", vec3 (-3) (-2) 1);
   ("TorusKnotGeometry", vec3 3.5 2.5 (-2));
   ("DodecahedronGeometry", vec3 (-4.5) 0 (-1));
   ("ConeGeometry", vec3 4.5 1 (-1.5))].

Definition nodeCount : nat := 12.

Definition particleCount (isDark : bool) : nat :=
  if isDark then 500%nat else 300%nat.

Section Mount.

(** The successive results of [Math.random()]. *)
Variable random : nat -> R.

(** Heap index of the first object the mount allocates. *)
Variable base : nat.

Definition make_ring (k : nat) (config : R * R) : Ring :=
  mkRing (mkMesh origin (vec3 (fst config) (snd config) 0)
                 (base + 5 + 2 * k) (base + 6 + 2 * k))
         0 config.

Definition make_node (i : nat) : Node :=
  let angle := INR i / INR nodeCount * PI * 2 in
  let radius := 2 + random (5 * i)%nat * 1.5 in
  let yOffset := (random (5 * i + 1)%nat - 0.5) * 2 in
  mkNode (mkMesh (vec3 (cos angle * radius) yOffset (sin angle * radius))
                 origin (base + 11 + 2 * i) (base + 12 + 2 * i))
         angle radius yOffset
         (0.2 + random (5 * i + 3)%nat * 0.3)
         (0.5 + random (5 * i + 4)%nat * 0.5).

Definition make_particle (k : nat) : Particle :=
  let d := (5 * nodeCount + 5 * k)%nat in
  let theta := random d * PI * 2 in
  let phi := acos (2 * random (d + 1)%nat - 1) in
  let radius := 3 + random (d + 2)%nat * 4 in
  mkParticle (vec3 (radius * sin phi * cos theta)
                   (radius * sin phi * sin theta)
                   (radius * cos phi))
             (random (d + 3)%nat) (random (d + 4)%nat).

Definition make_shape (isDark : bool) (k : nat) (config : string * Vector3)
  : Shape :=
  let d := (5 * nodeCount + 5 * particleCount isDark + 5 * k)%nat in
  mkShape (mkMesh (snd config) origin (base + 38 + k) (base + 44 + k))
          (snd config)
          (0.01 + random (d + 1)%nat * 0.02, 0.01 + random (d + 2)%nat * 0.02)
          (0.5 + random (d + 3)%nat * 0.5)
          (0.3 + random (d + 4)%nat * 0.3).

(** The geometries, materials and renderer created by the effect before its
    first frame, in the order of creation. *)
Definition allocations : Heap :=
  ([fresh Renderer "WebGLRenderer";
    fresh Geometry "IcosahedronGeometry(1.2, 4)";
    fresh Material "ShaderMaterial (central)";
    fresh Geometry "IcosahedronGeometry(0.6, 2)";
    fresh Material "MeshStandardMaterial (core)"]
   ++ flat_map (fun _ => [fresh Geometry "TorusGeometry";
                          fresh Material "ShaderMaterial (ring)"])
               ringConfigs
   ++ flat_map (fun _ => [fresh Geometry "OctahedronGeometry";
                          fresh Material "MeshStandardMaterial (node)"])
               (seq 0 nodeCount)
   ++ [fresh Material "LineBasicMaterial";
       fresh Geometry "BufferGeometry (particles)";
       fresh Material "ShaderMaterial (particles)"]
   ++ map (fun c => fresh Geometry (fst c)) shapeConfigs
   ++ map (fun _ => fresh Material "MeshStandardMaterial (shape)")
          shapeConfigs)%list.

(** The state of the effect's variables right before [animate()] is first
    called. *)
Definition built (t : Theme) : Instance :=
  let isDark := match t with dark => true | light => false end in
  mkInstance isDark base
    ([Fixed "ambientLight"; Fixed "pointLight1"; Fixed "pointLight2";
      Fixed "pointLight3"; Fixed "centralSphere"; Fixed "core"]
     ++ map (fun _ => Fixed "ring") ringConfigs
     ++ map (fun _ => Fixed "node") (seq 0 nodeCount)
     ++ [Fixed "particles"]
     ++ map (fun _ => Fixed "floatingShape") shapeConfigs)%list
    0 (mkMesh origin origin (base + 1) (base + 2))
    (mkMesh origin origin (base + 3) (base + 4))
    (map (fun kc => make_ring (fst kc) (snd kc)) (indexed ringConfigs))
    (map make_node (seq 0 nodeCount))
    (base + 35)%nat []
    (map make_particle (seq 0 (particleCount isDark)))
    0
    (map (fun kc => make_shape isDark (fst kc) (snd kc)) (indexed shapeConfigs))
    (vec3 3 3 3) (vec3 (-3) (-2) 2) (vec3 0 4 (-3))
    (vec3 0 1 6) (0, 0) (0, 0) None.

End Mount.

(** The effect of [ThreeScene]: nothing happens without a container
    ([if (!mountRef.current) return;]); otherwise the scene is built, the
    canvas appended, the pointer listener registered, [animate()] called once
    with the first reading [elapsed0] of the clock, and the resize listener
    registered.  The result is the state the cleanup closes over. *)
Definition mount (t : Theme) (has_container : bool) (random : nat -> R)
  (elapsed0 : R) (e : Env) : option Instance * Env :=
  if has_container then
    let base := length (heap e) in
    let e1 := mkEnv (addEventListener ("mousemove", handleMouseMove base)
                       (listeners e))
                    (frames e) (next_frame e)
                    (heap e ++ allocations)%list
                    (container e ++ [base])%list in
    let '(i, e2) := animate elapsed0 (built random base t) e1 in
    (Some i,
     mkEnv (addEventListener ("resize", handleResize base) (listeners e2))
           (frames e2) (next_frame e2) (heap e2) (container e2))
  else (None, e).

(** The cleanup returned by the effect. *)
Definition cleanup (i : Instance) (e : Env) : Env :=
  let own := renderer i in
  (* connectionLines.forEach((line) => { line.geometry.dispose();
       line.material.dispose(); }); *)
  let h1 := fold_left (fun h l => dispose (line_material l)
                                    (dispose (line_geometry l) h))
                      (connectionLines i) (heap e) in
  mkEnv (removeEventListener ("resize", handleResize own)
           (removeEventListener ("mousemove", handleMouseMove own)
              (listeners e)))
        (cancelAnimationFrame (animId i) (frames e))
        (next_frame e)
        (* renderer.dispose(); *)
        (dispose own h1)
        (* if (container.contains(renderer.domElement))
             container.removeChild(renderer.domElement); *)
        (filter (fun c => negb (Nat.eqb c own)) (container e)).

(** React runs the cleanup of an effect that returned one. *)
Definition unmount (i : option Instance) (e : Env) : Env :=
  match i with
  | Some i => cleanup i e
  | None => e
  end.

(** An environment in which nothing is registered or allocated. *)
Definition empty_env : Env := mkEnv [] [] 0 [] [].

(** *** Statements about connector lines *)

(** The index pairs [(i, j)], [i < j < n], in the order of the two loops. *)
Definition pairs (n : nat) : list (nat * nat) :=
  flat_map (fun i => map (fun j => (i, j))
                         (filter (fun j => negb (j <=? i)%nat) (seq 0 n)))
           (seq 0 n).

(** Position of the node of index [i]. *)
Definition node_position (ns : list Node) (i : nat) : Vector3 :=
  match nth_error ns i with
  | Some node => position (node_mesh node)
  | None => origin
  end.

Definition pair_distance (ns : list Node) (p : nat * nat) : R :=
  distanceTo (node_position ns (fst p)) (node_position ns (snd p)).

(** Whether the pair of nodes gets a line: [dist < 3]. *)
Definition within_reach (ns : list Node) (p : nat * nat) : bool :=
  if Rlt_dec (pair_distance ns p) 3 then true else false.

(** The inner loop body on the pair of indices [p]. *)
Definition connect_pair (ns : list Node)
  (s : list Child * list Line * Heap) (p : nat * nat)
  : list Child * list Line * Heap :=
  let '(ch, ls, h) := s in
  if within_reach ns p then
    let line := mkLine (length h) (S (length h))
                       (node_position ns (fst p)) (node_position ns (snd p))
                       (line_opacity (pair_distance ns p)) in
    ((ch ++ [Segment line])%list, (ls ++ [line])%list,
     (h ++ [fresh Geometry "BufferGeometry";
            fresh Material "LineBasicMaterial"])%list)
  else s.

(** The lines for the index pairs [ps], allocated from heap index [k] on. *)
Fixpoint lines_for (ns : list Node) (k : nat) (ps : list (nat * nat))
  : list Line :=
  match ps with
  | [] => []
  | p :: ps' =>
      mkLine k (S k) (node_position ns (fst p)) (node_position ns (snd p))
             (line_opacity (pair_distance ns p))
      :: lines_for ns (S (S k)) ps'
  end.

(** The geometry and the material of each line of [ls]. *)
Definition line_resources (ls : list Line) : Heap :=
  flat_map (fun _ => [fresh Geometry "BufferGeometry";
                      fresh Material "LineBasicMaterial"]) ls.


(** The lines of the scene graph. *)
Definition segments (ch : list Child) : list Line :=
  flat_map (fun c => match c with Segment l => [l] | Fixed _ => [] end) ch.

(** The children of the scene graph that are not lines. *)
Definition fixtures (ch : list Child) : list string :=
  flat_map (fun c => match c with Segment _ => [] | Fixed s => [s] end) ch.

(** The lines shown are the lines recorded, and they were allocated. *)
Definition lines_tracked (i : Instance) (h : Heap) : Prop :=
  segments (children i) = connectionLines i /\
  Forall (fun l => (line_geometry l < length h)%nat) (connectionLines i).

(** The states of a scene mounted in an empty environment: after the mount,
    after a frame the browser runs, after a pointer move. *)
Inductive running (t : Theme) (random : nat -> R) (elapsed0 : R)
  : Instance -> Env -> Prop :=
| run_mount i e :
    mount t true random elapsed0 empty_env = (Some i, e) ->
    running t random elapsed0 i e
| run_frame i e elapsed n :
    running t random elapsed0 i e ->
    running t random elapsed0 (fst (frame elapsed n i e))
            (snd (frame elapsed n i e))
| run_mouse i e fx fy :
    running t random elapsed0 i e ->
    running t random elapsed0 (onMouseMove fx fy i) e.

(** *** Statements about the frame *)

(** The per-object parameters that no frame changes. *)
Definition node_parameters (node : Node) : R * R * R * R :=
  (radius node, yOffset node, speed node, ySpeed node).

Definition shape_parameters (shape : Shape)
  : Vector3 * (R * R) * R * R :=
  (initialPos shape, rotSpeed shape, floatSpeed shape, floatAmp shape).

(** The nodes after the frames whose clock readings are [ts], in order. *)
Definition animate_nodes (ts : list R) (ns : list Node) : list Node :=
  fold_left (fun ns t => map (animate_node t) ns) ts ns.

End Scene.

(* ================================================================== *)
(** ** Portfolio: runs of events *)
(* ================================================================== *)

Module PageRun.
Import PageShell.
Local Open Scope string_scope.

(** The page after the events [evs], in order. *)
Definition run (evs : list Event) (p : Page) : Page := fold_left handle evs p.

(** The presence check of [handleSubmit] lets the submission through. *)
Definition accepts (p : Page) : bool :=
  negb (falsy (name (formData p)) || falsy (email (formData p))
        || falsy (message (formData p))).

(** The bodies of the submissions that pass the presence check along a run. *)
Fixpoint sent (evs : list Event) (p : Page) : list Request :=
  match evs with
  | [] => []
  | ev :: evs' =>
      (match ev with
       | Submit => if accepts p then [payload (formData p)] else []
       | _ => []
       end ++ sent evs' (handle p ev))%list
  end.

(** What every request built by [handleSubmit] looks like. *)
Definition well_formed (r : Request) : Prop :=
  req_name r <> EmptyString /\ req_email r <> EmptyString /\
  req_message r <> EmptyString /\
  subject r = "Portfolio Contact from " ++ req_name r /\
  from_name r = "Portfolio Website" /\
  access_key r = "e2afb174-0e7e-458d-aa67-dc7d720a1bcd".

End PageRun.

(* ================================================================== *)
(** ** Navbar *)
(* ================================================================== *)

Module Navbar.
Import PageShell.
Local Open Scope string_scope.

(** [String.prototype.toLowerCase] on ASCII text: the letters [A]..[Z] are
    mapped to [a]..[z], every other character is kept. *)
Definition lower (c : Ascii.ascii) : Ascii.ascii :=
  let n := Ascii.nat_of_ascii c in
  if ((65 <=? n) && (n <=? 90))%nat then Ascii.ascii_of_nat (n + 32) else c.

Fixpoint toLowerCase (s : string) : string :=
  match s with
  | EmptyString => EmptyString
  | String c s' => String (lower c) (toLowerCase s')
  end.

(** [const links = ["Home", "About", "Skills", "Experience", "Projects",
    "Contact"];] *)
Definition links : list string :=
  ["Home"; "About"; "Skills"; "Experience"; "Projects"; "Contact"].

(** [useState(false)] twice: [scrolled] and [menuOpen]. *)
Record Nav := mkNav { scrolled : bool; menuOpen : bool }.

Definition closed : Nav := mkNav false false.

(** [const onScroll = () => setScrolled(window.scrollY > 60);] *)
Definition onScroll (scrollY : Q) (n : Nav) : Nav :=
  mkNav (negb (Qle_bool scrollY 60)) (menuOpen n).

(** [onClick={() => setMenuOpen(!menuOpen)}] *)
Definition toggleMenu (n : Nav) : Nav := mkNav (scrolled n) (negb (menuOpen n)).

(** [scrollTo]: [setMenuOpen(false);
    document.getElementById(id.toLowerCase())?.scrollIntoView(...)].
    The second component is the element scrolled into view, if any. *)
Definition scrollTo (document : list Element) (i : string) (n : Nav)
  : Nav * option Element :=
  (mkNav (scrolled n) false, getElementById document (toLowerCase i)).

(** [activeSection === l.toLowerCase()]: the link [l] is drawn as active. *)
Definition highlighted (active : string) (l : string) : bool :=
  String.eqb active (toLowerCase l).

End Navbar.

(* ================================================================== *)
(** ** StatCounter with its reveal hook *)
(* ================================================================== *)

Module CounterComponent.
Import StatCounter.

(** The state of a mounted [StatCounter]: the flag of its [useReveal] and
    the counter with the closure of its effect. *)
Record Mounted := mkMounted { visible : bool; counter : counter }.

(** After the first render: the flag is false and the effect returned at
    [if (!visible) return;]. *)
Definition first_render : Mounted :=
  mkMounted Reveal.mounted (effect Reveal.mounted unseen).

(** The cleanup [() => clearInterval(timer)] of an effect run; a run that
    returned at the guard has none. *)
Definition effect_cleanup (was_visible : bool) (c : StatCounter.counter)
  : StatCounter.counter :=
  if was_visible then mkCounter (count c) (start c) false else c.

(** A delivery of the observer, or a firing of the interval. *)
Inductive Ev :=
| Observe (entries : list Entry)
| Fire.

(** A delivery runs the callback of [useReveal]; when the flag changes, the
    effect with dependencies [[visible, value]] is cleaned up and run again.
    A firing runs the interval callback, if the interval is registered. *)
Definition on (value : Z) (m : Mounted) (ev : Ev) : Mounted :=
  match ev with
  | Observe entries =>
      let v := Reveal.callback entries (visible m) in
      if Bool.eqb v (visible m) then m
      else mkMounted v (effect v (effect_cleanup (visible m) (counter m)))
  | Fire => mkMounted (visible m) (tick value (counter m))
  end.

Fixpoint fires (evs : list Ev) : nat :=
  match evs with
  | [] => 0
  | Fire :: evs' => S (fires evs')
  | Observe _ :: evs' => fires evs'
  end.

(** The number of firings after the first qualifying delivery, if any. *)
Fixpoint fires_after_reveal (evs : list Ev) : option nat :=
  match evs with
  | [] => None
  | Observe entries :: evs' =>
      if Reveal.qualifies entries then Some (fires evs')
      else fires_after_reveal evs'
  | Fire :: evs' => fires_after_reveal evs'
  end.

End CounterComponent.

(* ================================================================== *)
(** ** ThreeScene: runs of a mounted scene *)
(* ================================================================== *)

Module SceneRun.
Import Scene.
Local Open Scope R_scope.

(** The variables and the environment of a scene right after its mount in
    an empty environment. *)
Definition started (t : Theme) (random : nat -> R) (elapsed0 : R)
  : Instance * Env :=
  match mount t true random elapsed0 empty_env with
  | (Some i, e) => (i, e)
  | (None, e) => (built random 0 t, e)
  end.

(** What happens to a mounted scene: the browser runs the frame callback
    [n] at clock reading [elapsed], or the pointer moves to the fractions
    [(fx, fy)] of the window. *)
Inductive SceneEvent :=
| Frame (elapsed : R) (n : nat)
| PointerAt (fx fy : R).

Definition scene_step (s : Instance * Env) (ev : SceneEvent)
  : Instance * Env :=
  match ev with
  | Frame elapsed n => frame elapsed n (fst s) (snd s)
  | PointerAt fx fy => (onMouseMove fx fy (fst s), snd s)
  end.

(** The scene after its mount and the events [evs], in order. *)
Definition play (t : Theme) (random : nat -> R) (elapsed0 : R)
  (evs : list SceneEvent) : Instance * Env :=
  fold_left scene_step evs (started t random elapsed0).

(** The pointer is over the window. *)
Definition inside_window (ev : SceneEvent) : Prop :=
  match ev with
  | PointerAt fx fy => 0 <= fx <= 1 /\ 0 <= fy <= 1
  | Frame _ _ => True
  end.


(** How a frame that runs relates the variables before and after it: the
    objects are set by [animate_objects]; the lines are either kept or
    replaced by those of the node pairs within reach. *)
Definition frame_outcome (elapsed : R) (i i' : Instance) : Prop :=
  exists id ch ls k,
    i' = with_lines (animate_objects elapsed id i) ch ls /\
    fixtures ch = fixtures (children i) /\
    (ls = connectionLines i \/
     let ns := map (animate_node elapsed) (nodes i) in
     ls = lines_for ns k (filter (within_reach ns) (pairs (length ns)))).






(** The smoothed pointer and the camera within their boxes. *)
Definition camera_in_box (i : Instance) : Prop :=
  (-1 <= fst (mouse i) <= 1 /\ -1 <= snd (mouse i) <= 1) /\
  (-1 <= fst (targetMouse i) <= 1 /\ -1 <= snd (targetMouse i) <= 1) /\
  -2 <= vx (camera i) <= 2 /\ -0.5 <= vy (camera i) <= 2.5 /\
  vz (camera i) = 6.

(** The objects a mount creates, which no frame adds to or removes from. *)
Definition same_objects (t : Theme) (random : nat -> R) (i : Instance)
  : Prop :=
  let b := built random 0 t in
  isDark i = isDark b /\ renderer i = 0%nat /\ lineMaterial i = 35%nat /\
  fixtures (children i) = fixtures (children b) /\
  length (rings i) = 3%nat /\ length (nodes i) = 12%nat /\
  length (floatingShapes i) = 6%nat /\
  particles i = particles b /\
  length (particles i) = particleCount (isDark b).

(** At most one line per pair of the twelve nodes, each faintly visible. *)
Definition lines_bounded (i : Instance) : Prop :=
  length (nodes i) = 12%nat /\
  (length (connectionLines i) <= 66)%nat /\
  Forall (fun l => 0 < opacity l <= 0.15) (connectionLines i).


(** What the rest of the scene needs from the environment while mounted. *)
Definition mounted_env (s : Instance * Env) : Prop :=
  listeners (snd s) =
    [("mousemove"%string, handleMouseMove 0); ("resize"%string, handleResize 0)] /\
  container (snd s) = [0%nat] /\
  renderer (fst s) = 0%nat /\
  (exists k, frames (snd s) = [k] /\ animId (fst s) = Some k) /\
  (exists rest, heap (snd s) = (allocations ++ rest)%list) /\
  Forall (fun l => (50 <= line_geometry l)%nat /\
                   line_material l = S (line_geometry l))
         (connectionLines (fst s)).



End SceneRun.

(* ================================================================== *)
(** * Properties *)
(* ================================================================== *)

(** ** StatCounter *)

Module StatCounterProps.
Import StatCounter.
Local Open Scope Z_scope.

Example ticks_100_33 : ticks 100 33 = mkCounter 99 99 true.
Proof. reflexivity. Qed.

Example ticks_100_34 : ticks 100 34 = mkCounter 100 102 false.
Proof. reflexivity. Qed.

Example ticks_7_7 : ticks 7 7 = mkCounter 7 7 false.
Proof. reflexivity. Qed.

Example ticks_neg : ticks (-5) 1 = mkCounter (-5) 1 false.
Proof. reflexivity. Qed.

(** *** Arithmetic of the step *)

Lemma ceil_div_ge (a b : Z) : 0 < b -> a <= b * ceil_div a b.
Proof.
  intros Hb. unfold ceil_div.
  pose proof (Z.mul_div_le (- a) b Hb). lia.
Qed.

Lemma ceil_div_lt (a b : Z) : 0 < b -> b * (ceil_div a b - 1) < a.
Proof.
  intros Hb. unfold ceil_div.
  pose proof (Z.mul_succ_div_gt (- a) b Hb). lia.
Qed.

Lemma ceil_div_pos (a b : Z) : 0 < b -> 0 < a -> 1 <= ceil_div a b.
Proof.
  intros Hb Ha. pose proof (ceil_div_ge a b Hb) as H.
  destruct (Z_lt_le_dec (ceil_div a b) 1) as [Hlt|]; [|assumption].
  exfalso. nia.
Qed.

Lemma ceil_div_nonpos (a b : Z) : 0 < b -> a <= 0 -> ceil_div a b <= 0.
Proof.
  intros Hb Ha. pose proof (ceil_div_lt a b Hb) as H.
  destruct (Z_lt_le_dec 0 (ceil_div a b)) as [Hlt|]; [|assumption].
  exfalso. nia.
Qed.

Lemma ceil_div_le_self (a b : Z) : 1 <= b -> 0 < a -> ceil_div a b <= a.
Proof.
  intros Hb Ha. pose proof (ceil_div_lt a b ltac:(lia)) as H.
  destruct (Z_lt_le_dec a (ceil_div a b)) as [Hlt|]; [|assumption].
  exfalso. nia.
Qed.

Lemma step_ge_1 (value : Z) : 1 <= step value.
Proof. unfold step. lia. Qed.

Lemma step_positive_target (value : Z) :
  0 < value -> step value = ceil_div value 40.
Proof.
  intros Hv. unfold step.
  pose proof (ceil_div_pos value 40 ltac:(lia) Hv). lia.
Qed.

(** *** The run of the interval *)

Lemma tick_cleared (value : Z) (c : counter) :
  timer c = false -> tick value c = c.
Proof. intros H. unfold tick. now rewrite H. Qed.

Lemma iter_tick_cleared (value : Z) (c : counter) (n : nat) :
  timer c = false -> Nat.iter n (tick value) c = c.
Proof.
  intros H. induction n as [|n IH]; [reflexivity|].
  rewrite Nat.iter_succ, IH. now apply tick_cleared.
Qed.

Lemma ticks_S (value : Z) (n : nat) :
  ticks value (S n) = tick value (ticks value n).
Proof. reflexivity. Qed.

(** While every earlier firing stayed below the target, the accumulator is
    [n * step] and the interval is still registered. *)
Lemma ticks_below (value : Z) (n : nat) :
  Z.of_nat n * step value < value \/ n = 0%nat ->
  start (ticks value n) = Z.of_nat n * step value /\
  timer (ticks value n) = true /\
  count (ticks value n) = Z.of_nat n * step value.
Proof.
  pose proof (step_ge_1 value) as Hs.
  induction n as [|n IH]; intros Hn.
  - cbn. repeat split; reflexivity.
  - rewrite ticks_S.
    destruct Hn as [Hn|Hn]; [|discriminate].
    destruct IH as (Hst & Hti & Hco).
    { destruct n; [now right|left]. nia. }
    unfold tick. rewrite Hti, Hst.
    replace (Z.of_nat n * step value + step value)
      with (Z.of_nat (S n) * step value) by nia.
    destruct (Z.geb_spec (Z.of_nat (S n) * step value) value) as [Hge|Hlt];
      [lia|].
    cbn. repeat split; reflexivity.
Qed.

(** The firing on which the accumulator reaches the target clears the
    interval and shows exactly [value]. *)
Lemma ticks_reach (value : Z) (n : nat) :
  (Z.of_nat n * step value < value \/ n = 0%nat) ->
  value <= Z.of_nat (S n) * step value ->
  ticks value (S n) = mkCounter value (Z.of_nat (S n) * step value) false.
Proof.
  intros Hn Hge. rewrite ticks_S.
  destruct (ticks_below value n Hn) as (Hst & Hti & _).
  unfold tick. rewrite Hti, Hst.
  replace (Z.of_nat n * step value + step value)
    with (Z.of_nat (S n) * step value) by nia.
  destruct (Z.geb_spec (Z.of_nat (S n) * step value) value); [reflexivity|lia].
Qed.

Lemma last_tick_pos (value : Z) : (1 <= last_tick value)%nat.
Proof. unfold last_tick. lia. Qed.

Lemma last_tick_reaches (value : Z) :
  value <= Z.of_nat (last_tick value) * step value.
Proof.
  pose proof (step_ge_1 value) as Hs.
  pose proof (ceil_div_ge value (step value) ltac:(lia)) as Hc.
  unfold last_tick. rewrite Z2Nat.id by lia. nia.
Qed.

Lemma before_last_tick (value : Z) (n : nat) :
  (n < last_tick value)%nat ->
  Z.of_nat n * step value < value \/ n = 0%nat.
Proof.
  pose proof (step_ge_1 value) as Hs.
  pose proof (ceil_div_lt value (step value) ltac:(lia)) as Hc.
  unfold last_tick. intros Hn.
  destruct n as [|n]; [now right|left].
  assert (Z.of_nat (S n) < Z.max 1 (ceil_div value (step value))) by lia.
  assert (Z.of_nat (S n) <= ceil_div value (step value) - 1) by lia.
  nia.
Qed.

Lemma ticks_last (value : Z) :
  ticks value (last_tick value) =
  mkCounter value (Z.of_nat (last_tick value) * step value) false.
Proof.
  pose proof (last_tick_pos value) as Hp.
  pose proof (last_tick_reaches value) as Hr.
  destruct (last_tick value) as [|n] eqn:E; [lia|].
  apply ticks_reach; [|assumption].
  apply before_last_tick. lia.
Qed.

Lemma ticks_after_last (value : Z) (m : nat) :
  (last_tick value <= m)%nat -> ticks value m = ticks value (last_tick value).
Proof.
  intros Hm. replace m with ((m - last_tick value) + last_tick value)%nat by lia.
  unfold ticks at 1. rewrite Nat.iter_add. fold (ticks value (last_tick value)).
  apply iter_tick_cleared. now rewrite ticks_last.
Qed.

Lemma last_tick_bound (value : Z) :
  Z.of_nat (last_tick value) <= Z.max 1 value.
Proof.
  pose proof (step_ge_1 value) as Hs.
  unfold last_tick. rewrite Z2Nat.id by lia.
  destruct (Z_lt_le_dec 0 value) as [Hv|Hv].
  - pose proof (ceil_div_le_self value (step value) Hs Hv). lia.
  - pose proof (ceil_div_nonpos value (step value) ltac:(lia) Hv). lia.
Qed.

Lemma tick_start (value : Z) (c : counter) :
  timer c = true -> start (tick value c) = start c + step value.
Proof.
  intros H. unfold tick. rewrite H.
  destruct (start c + step value >=? value); reflexivity.
Qed.

Lemma count_le_target (value : Z) (m : nat) :
  0 < value -> count (ticks value m) <= value.
Proof.
  intros Hv. destruct (Nat.lt_ge_cases m (last_tick value)) as [Hlt|Hge].
  - pose proof (before_last_tick value m Hlt) as Hb.
    destruct (ticks_below value m Hb) as (_ & _ & Hc). rewrite Hc.
    destruct Hb as [Hb|Hb]; [lia|subst m; cbn; lia].
  - rewrite (ticks_after_last value m Hge), ticks_last. cbn. lia.
Qed.

(** C3. For a positive integer target the counter starts from 0 when its
    container becomes visible, advances by [ceil(value/40)] on every firing
    of the interval, shows exactly [value] on the firing that reaches or
    passes it (clamping on overshoot), clears the interval there so that no
    later firing changes anything, and never shows more than [value]. *)
Theorem C3_stat_counter_reaches_target (value : Z) :
  0 < value ->
  step value = ceil_div value 40 /\
  (forall n, Nat.iter n (tick value) (effect false unseen) = unseen) /\
  ticks value 0 = mkCounter 0 0 true /\
  (forall n, (n < last_tick value)%nat ->
     timer (ticks value n) = true /\
     count (ticks value n) = Z.of_nat n * step value /\
     count (ticks value n) < value) /\
  count (ticks value (last_tick value)) = value /\
  timer (ticks value (last_tick value)) = false /\
  (forall m, (last_tick value <= m)%nat ->
     ticks value m = ticks value (last_tick value)) /\
  (forall m, count (ticks value m) <= value).
Proof.
  intros Hv. split; [now apply step_positive_target|].
  split; [intros n; now apply iter_tick_cleared|].
  split; [reflexivity|].
  split.
  { intros n Hn. pose proof (before_last_tick value n Hn) as Hb.
    destruct (ticks_below value n Hb) as (_ & Hti & Hc).
    rewrite Hc. repeat split; trivial.
    destruct Hb as [Hb|Hb]; [lia|subst n; cbn; lia]. }
  rewrite ticks_last. cbn [count timer].
  repeat split; trivial.
  - intros m Hm. rewrite <- ticks_last. now apply ticks_after_last.
  - intros m. now apply count_le_target.
Qed.

(** The counter of the "Users Scaled To" stat, [value = 100]. *)
Lemma C3_stat_counter_witness :
  0 < 100 /\
  count (ticks 100 (last_tick 100)) = 100 /\
  timer (ticks 100 (last_tick 100)) = false.
Proof.
  split; [reflexivity|].
  pose proof (C3_stat_counter_reaches_target 100 eq_refl) as H.
  split; apply H.
Defined.

(** C9. For every integer target, zero and negative ones included, the step is
    at least 1, the accumulator strictly increases on every firing of a
    registered interval, and after [last_tick value] firings, a number between
    1 and [max 1 value], the accumulator has reached the target and the
    interval is cleared for good. *)
Theorem C9_stat_counter_terminates (value : Z) :
  1 <= step value /\
  (forall n, timer (ticks value n) = true ->
     start (ticks value n) < start (ticks value (S n))) /\
  (1 <= last_tick value)%nat /\
  Z.of_nat (last_tick value) <= Z.max 1 value /\
  (forall n, (n < last_tick value)%nat -> timer (ticks value n) = true) /\
  value <= start (ticks value (last_tick value)) /\
  (forall m, (last_tick value <= m)%nat -> timer (ticks value m) = false).
Proof.
  pose proof (step_ge_1 value) as Hs.
  split; [assumption|].
  split.
  { intros n Hn. rewrite ticks_S, (tick_start value _ Hn). lia. }
  split; [apply last_tick_pos|].
  split; [apply last_tick_bound|].
  split.
  { intros n Hn. now apply ticks_below, before_last_tick. }
  split.
  { rewrite ticks_last. cbn. apply last_tick_reaches. }
  intros m Hm. rewrite (ticks_after_last value m Hm), ticks_last. reflexivity.
Qed.

End StatCounterProps.

(** ** useReveal *)

Module RevealProps.
Import Reveal.

Example deliver_hidden_shown_hidden :
  let hidden := mkEntry (mkElement "about") false 0 in
  let shown := mkEntry (mkElement "about") true 1 in
  trace mounted [[hidden]; [shown]; [hidden]; [shown]] =
  [false; true; true; true].
Proof. reflexivity. Qed.

Example only_first_entry_read :
  callback [mkEntry (mkElement "about") false 0;
            mkEntry (mkElement "about") true 1] false = false.
Proof. reflexivity. Qed.

Lemma callback_qualifies (entries : list Entry) (v : bool) :
  callback entries v = v || qualifies entries.
Proof.
  destruct entries as [|e entries]; cbn.
  - now rewrite orb_false_r.
  - destruct (isIntersecting e), v; reflexivity.
Qed.

Lemma callback_set (entries : list Entry) : callback entries true = true.
Proof. now rewrite callback_qualifies. Qed.

Lemma deliver_cons (v : bool) (entries : list Entry) evs :
  deliver v (entries :: evs) = deliver (callback entries v) evs.
Proof. reflexivity. Qed.

Lemma deliver_app (v : bool) evs1 evs2 :
  deliver v (evs1 ++ evs2) = deliver (deliver v evs1) evs2.
Proof. unfold deliver. apply fold_left_app. Qed.

Lemma deliver_existsb (v : bool) evs :
  deliver v evs = v || existsb qualifies evs.
Proof.
  revert v. induction evs as [|entries evs IH]; intros v.
  - cbn. now rewrite orb_false_r.
  - rewrite deliver_cons, IH, callback_qualifies. cbn [existsb].
    now rewrite orb_assoc.
Qed.

Lemma falls_trace (v : bool) evs : falls v (trace v evs) = 0.
Proof.
  revert v. induction evs as [|entries evs IH]; intros v; [reflexivity|].
  cbn [trace falls]. rewrite IH, callback_qualifies.
  destruct v, (qualifies entries); reflexivity.
Qed.

Lemma rises_trace_set evs : rises true (trace true evs) = 0.
Proof.
  induction evs as [|entries evs IH]; [reflexivity|].
  cbn [trace rises]. now rewrite callback_set, IH.
Qed.

Lemma rises_trace evs :
  rises false (trace false evs) = if existsb qualifies evs then 1 else 0.
Proof.
  induction evs as [|entries evs IH]; [reflexivity|].
  cbn [trace rises existsb]. rewrite callback_qualifies. cbn [orb].
  destruct (qualifies entries); cbn.
  - now rewrite rises_trace_set.
  - exact IH.
Qed.

Lemma trace_length (v : bool) evs : length (trace v evs) = length evs.
Proof.
  revert v. induction evs as [|entries evs IH]; intros v; cbn; auto.
Qed.

Lemma trace_nth (v : bool) evs (k : nat) :
  k < length evs ->
  nth k (trace v evs) v = deliver v (firstn (S k) evs).
Proof.
  revert v k. induction evs as [|entries evs IH]; intros v k Hk.
  - cbn in Hk. lia.
  - destruct k as [|k]; [reflexivity|].
    cbn [trace nth]. cbn in Hk.
    rewrite firstn_cons, deliver_cons.
    rewrite <- (IH (callback entries v) k) by lia.
    apply nth_indep. rewrite trace_length. lia.
Qed.

(** C8. Along any sequence of deliveries to a mounted reveal hook the flag
    starts false, never steps from true to false, steps from false to true
    once when some delivery qualifies (and not at all otherwise), does so on
    the first qualifying delivery, and every delivery made once the flag is
    set leaves it set. *)
Theorem C8_reveal_flag_one_way (evs : list (list Entry)) :
  mounted = false /\
  falls mounted (trace mounted evs) = 0 /\
  rises mounted (trace mounted evs) =
    (if existsb qualifies evs then 1 else 0) /\
  (forall pre q post,
     evs = pre ++ q :: post ->
     existsb qualifies pre = false -> qualifies q = true ->
     deliver mounted pre = false /\
     deliver mounted (pre ++ [q]) = true /\
     deliver mounted evs = true) /\
  (forall entries, callback entries true = true) /\
  (forall k, k <= length evs ->
     deliver mounted (firstn k evs) = true ->
     forall m, k <= m -> deliver mounted (firstn m evs) = true).
Proof.
  split; [reflexivity|].
  split; [apply falls_trace|].
  split; [apply rises_trace|].
  split.
  { intros pre q post -> Hpre Hq.
    rewrite !deliver_existsb, !existsb_app, Hpre. cbn.
    rewrite Hq. repeat split; reflexivity. }
  split; [apply callback_set|].
  intros k Hk Hset m Hm.
  rewrite deliver_existsb in *. cbn [mounted orb] in *.
  apply existsb_exists in Hset. destruct Hset as (q & Hin & Hq).
  apply existsb_exists. exists q. split; [|assumption].
  rewrite <- (firstn_skipn k (firstn m evs)).
  apply in_or_app. left.
  rewrite firstn_firstn. now replace (Nat.min k m) with k by lia.
Qed.

End RevealProps.

(** ** Portfolio: section tracker *)

Module TrackerProps.
Import PageShell.
Local Open Scope string_scope.

Example later_entry_wins :
  activeSection
    (onIntersect [mkEntry (mkElement "about") true (1 # 2);
                  mkEntry (mkElement "skills") true (2 # 5);
                  mkEntry (mkElement "experience") true (1 # 10)] initial)
  = "skills".
Proof. reflexivity. Qed.

Lemma over_threshold_spec (e : Entry) :
  over_threshold e = true <->
  isIntersecting e = true /\ (3 # 10 < intersectionRatio e)%Q.
Proof.
  unfold over_threshold. rewrite andb_true_iff, negb_true_iff.
  split; intros [Hi Hr]; (split; [assumption|]).
  - apply Qnot_le_lt. intros Hle. apply Qle_bool_iff in Hle. congruence.
  - destruct (Qle_bool (intersectionRatio e) (3 # 10)) eqn:E; [|reflexivity].
    apply Qle_bool_iff in E. exfalso. now apply (Qlt_not_le _ _ Hr).
Qed.

Lemma onIntersect_app (es1 es2 : list Entry) (p : Page) :
  onIntersect (es1 ++ es2)%list p = onIntersect es2 (onIntersect es1 p).
Proof. unfold onIntersect. apply fold_left_app. Qed.

Lemma onIntersect_none (es : list Entry) (p : Page) :
  existsb over_threshold es = false -> onIntersect es p = p.
Proof.
  revert p. induction es as [|e es IH]; intros p H; [reflexivity|].
  cbn in H. apply orb_false_iff in H. destruct H as [He Hes].
  cbn. rewrite He. now apply IH.
Qed.

Lemma onIntersect_last (es : list Entry) (p : Page) :
  activeSection (onIntersect es p) =
  match find over_threshold (rev es) with
  | Some e => id (target e)
  | None => activeSection p
  end.
Proof.
  induction es as [|e es IH] using rev_ind; [reflexivity|].
  rewrite onIntersect_app, rev_app_distr. cbn.
  destruct (over_threshold e); [reflexivity|exact IH].
Qed.

(** Only [activeSection] is written by the observer callback. *)
Lemma onIntersect_frame (es : list Entry) (p : Page) :
  onIntersect es p = setActiveSection (activeSection (onIntersect es p)) p.
Proof.
  revert p. induction es as [|e es IH]; intros p.
  - now destruct p.
  - cbn. destruct (over_threshold e); [|apply IH].
    rewrite IH at 1. now destruct p.
Qed.

(** C7, as the code has it. An entry qualifies when it is intersecting and
    its ratio is strictly above 0.3; after a batch the current section is
    the [id] of the target of the last qualifying entry of the batch, and is
    unchanged when no entry qualifies. *)
Theorem C7_section_tracker_last_qualifying (entries : list Entry) (p : Page) :
  (forall e, over_threshold e = true <->
             isIntersecting e = true /\ (3 # 10 < intersectionRatio e)%Q) /\
  activeSection (onIntersect entries p) =
    match find over_threshold (rev entries) with
    | Some e => id (target e)
    | None => activeSection p
    end /\
  (forall pre e post,
     entries = (pre ++ e :: post)%list ->
     over_threshold e = true -> existsb over_threshold post = false ->
     activeSection (onIntersect entries p) = id (target e)).
Proof.
  split; [apply over_threshold_spec|].
  split; [apply onIntersect_last|].
  intros pre e post -> He Hpost.
  rewrite onIntersect_app. cbn. rewrite He.
  fold (onIntersect post (setActiveSection (id (target e)) (onIntersect pre p))).
  now rewrite onIntersect_none.
Qed.

(** Two qualifying entries in one batch: the later one is reported. *)
Lemma C7_section_tracker_witness :
  let a := mkEntry (mkElement "about") true (1 # 2) in
  let b := mkEntry (mkElement "skills") true (2 # 5) in
  activeSection (onIntersect [a; b] initial) = "skills".
Proof.
  intros a b.
  apply (proj2 (proj2 (C7_section_tracker_last_qualifying [a; b] initial))
           [a] b []); reflexivity.
Defined.

(** C7 as stated fails at the threshold: a section of which exactly 30% is
    within the viewport is reported intersecting with ratio 0.3, satisfies
    "at least 30%", and does not become current. *)
Lemma C7_counterexample_at_threshold :
  let e := mkEntry (mkElement "about") true (3 # 10) in
  isIntersecting e = true /\
  (3 # 10 <= intersectionRatio e)%Q /\
  activeSection (onIntersect [e] initial) = "home" /\
  activeSection (onIntersect [e] initial) <> id (target e).
Proof.
  cbn. repeat split; try reflexivity.
  - apply Qle_refl.
  - discriminate.
Qed.

Lemma observed_in_sections (document : list Element) (el : Element) :
  In el (observed document) -> In (id el) sections.
Proof.
  unfold observed. intros H. apply in_flat_map in H.
  destruct H as (i & Hi & Hel).
  destruct (getElementById document i) as [el'|] eqn:E; [|contradiction].
  destruct Hel as [<-|[]].
  unfold getElementById in E. apply find_some in E. destruct E as [_ E].
  apply String.eqb_eq in E. now rewrite E.
Qed.

Lemma handle_activeSection (p : Page) (ev : Event) :
  match ev with
  | Intersect _ => True
  | _ => activeSection (handle p ev) = activeSection p
  end.
Proof.
  destruct ev as [es|f v| |r|ms|]; cbn; trivial.
  - unfold handleSubmit.
    now destruct (falsy (name (formData p)) || falsy (email (formData p))
                  || falsy (message (formData p))).
  - destruct r as [data|]; cbn; [destruct (truthy data)|]; reflexivity.
Qed.

(** C10. In every reachable state of the page the current-section label is
    one of the six section identifiers. *)
Theorem C10_active_section_is_a_section (document : list Element) (p : Page) :
  reachable document p -> In (activeSection p) sections.
Proof.
  induction 1 as [|p ev Hp IH Hev].
  - cbn. now left.
  - pose proof (handle_activeSection p ev) as Hframe.
    destruct ev as [es|f v| |r|ms|]; try (rewrite Hframe; exact IH).
    cbn in Hev |- *. rewrite onIntersect_last.
    destruct (find over_threshold (rev es)) as [e|] eqn:E; [|exact IH].
    apply find_some in E. destruct E as [Hin _].
    apply in_rev in Hin.
    rewrite Forall_forall in Hev.
    apply observed_in_sections with (document := document). now apply Hev.
Qed.

(** The state after one delivery on a document with two of the sections. *)
Lemma C10_active_section_witness :
  In (activeSection
        (handle initial
           (Intersect [mkEntry (mkElement "projects") true (1 # 2)])))
     sections.
Proof.
  apply (C10_active_section_is_a_section
           [mkElement "home"; mkElement "projects"]).
  apply reach_step; [apply reach_initial|].
  cbn. constructor; [|constructor].
  cbn. right. now left.
Defined.

End TrackerProps.

(** ** Portfolio: contact form *)

Module FormProps.
Import PageShell.
Local Open Scope string_scope.
Local Open Scope Z_scope.

Example submit_rejected :
  let p := onChange FMessage "hello"
             (onChange FEmail "ada@example.org" (onChange FName "Ada" initial)) in
  let p2 := handleReply Rejected (handleSubmit p) in
  (formStatus (handleSubmit p), formStatus p2, formStatus (advance 3999 p2),
   formStatus (advance 4000 p2), formData (advance 4000 p2))
  = (sending, error, error, idle, mkForm "Ada" "ada@example.org" "hello").
Proof. reflexivity. Qed.

Example submit_accepted :
  let p := onChange FMessage "hello"
             (onChange FEmail "ada@example.org" (onChange FName "Ada" initial)) in
  let p2 := handleReply (Json (JBool true)) (handleSubmit p) in
  (formStatus p2, formData p2, formStatus (advance 4999 p2),
   formStatus (advance 5000 p2))
  = (success, mkForm EmptyString EmptyString EmptyString, success, idle).
Proof. reflexivity. Qed.

Lemma falsy_spec (s : string) : falsy s = true <-> s = EmptyString.
Proof. unfold falsy. apply String.eqb_eq. Qed.

Lemma falsy_false (s : string) : falsy s = false <-> s <> EmptyString.
Proof. unfold falsy. apply String.eqb_neq. Qed.

(** The presence check passes exactly when the three fields are non-empty. *)
Lemma handleSubmit_filled (p : Page) :
  name (formData p) <> EmptyString -> email (formData p) <> EmptyString ->
  message (formData p) <> EmptyString ->
  handleSubmit p = fetch (payload (formData p)) (setFormStatus sending p).
Proof.
  intros Hn He Hm. unfold handleSubmit.
  apply falsy_false in Hn, He, Hm. now rewrite Hn, He, Hm.
Qed.

Lemma handleSubmit_blocked (p : Page) :
  name (formData p) = EmptyString \/ email (formData p) = EmptyString \/
  message (formData p) = EmptyString ->
  handleSubmit p = alert "Please fill in all fields." p.
Proof.
  intros H. unfold handleSubmit.
  assert (falsy (name (formData p)) || falsy (email (formData p))
          || falsy (message (formData p)) = true) as ->; [|reflexivity].
  rewrite !orb_true_iff, !falsy_spec. tauto.
Qed.

Lemma handleReply_failure (r : Reply) (p : Page) :
  failure r = true ->
  handleReply r p = setTimeout_idle 4000 (setFormStatus error p).
Proof.
  destruct r as [data|]; cbn; [|reflexivity].
  rewrite negb_true_iff. now intros ->.
Qed.

Lemma advance_formData (ms : Z) (p : Page) :
  formData (advance ms p) = formData p.
Proof. reflexivity. Qed.

Lemma advance_idle (ms : Z) (p : Page) :
  formStatus p = idle -> formStatus (advance ms p) = idle.
Proof.
  intros H. cbn. now destruct (filter _ (timeouts p)).
Qed.

(** A timeout that is due fires. *)
Lemma advance_due (ms : Z) (p : Page) (d : Z) :
  In d (timeouts p) -> d <= now p + ms -> formStatus (advance ms p) = idle.
Proof.
  intros Hin Hd. cbn.
  destruct (filter (fun d => d <=? now p + ms) (timeouts p)) eqn:E;
    [|reflexivity].
  exfalso. assert (Hf : In d (filter (fun d => d <=? now p + ms) (timeouts p))).
  { apply filter_In. split; [assumption|]. now apply Z.leb_le. }
  rewrite E in Hf. contradiction.
Qed.

(** Without a due timeout the status stays. *)
Lemma advance_not_due (ms : Z) (p : Page) :
  (forall d, In d (timeouts p) -> now p + ms < d) ->
  formStatus (advance ms p) = formStatus p.
Proof.
  intros H. cbn.
  destruct (filter (fun d => d <=? now p + ms) (timeouts p)) as [|d l] eqn:E;
    [reflexivity|].
  exfalso. assert (Hf : In d (filter (fun d => d <=? now p + ms) (timeouts p))).
  { rewrite E. now left. }
  apply filter_In in Hf. destruct Hf as [Hin Hle].
  apply Z.leb_le in Hle. specialize (H d Hin). lia.
Qed.

(** C4. A submission with the three fields filled in enters [sending] and
    issues its request; when the relay then answers with a [success] field
    that is false (or otherwise not truthy), or the call rejects, whatever
    the time [wait] the request was in flight, the status becomes [error],
    is [idle] 4 seconds later, stays [error] in between when no earlier
    timeout is pending, and the three fields hold what they held at the
    submission throughout. *)
Theorem C4_contact_form_error_path (p : Page) (r : Reply) (wait : Z) :
  name (formData p) <> EmptyString -> email (formData p) <> EmptyString ->
  message (formData p) <> EmptyString ->
  failure r = true ->
  0 <= wait ->
  let p1 := handleSubmit p in
  let p2 := handleReply r (advance wait p1) in
  formStatus p1 = sending /\
  formData p1 = formData p /\
  formStatus p2 = error /\
  formData p2 = formData p /\
  (timeouts p = [] ->
   forall ms, 0 <= ms < 4000 ->
     formStatus (advance ms p2) = error /\
     formData (advance ms p2) = formData p) /\
  formStatus (advance 4000 p2) = idle /\
  formData (advance 4000 p2) = formData p.
Proof.
  intros Hn He Hm Hr Hw p1 p2. subst p1 p2.
  rewrite (handleSubmit_filled p Hn He Hm), (handleReply_failure _ _ Hr).
  do 4 (split; [reflexivity|]).
  split; [|split; [|reflexivity]].
  - intros Hno ms Hms. split; [|reflexivity].
    rewrite advance_not_due; [reflexivity|].
    cbn. rewrite Hno. cbn. intros d [<-|[]]. lia.
  - apply advance_due with (d := now p + wait + 4000); [|cbn; lia].
    cbn. apply in_or_app. right. now left.
Qed.

(** A filled form, a relay reply with [success: false] after 250ms. *)
Lemma C4_contact_form_witness :
  let p := onChange FMessage "hello"
             (onChange FEmail "ada@example.org" (onChange FName "Ada" initial)) in
  let p2 := handleReply (Json (JBool false)) (advance 250 (handleSubmit p)) in
  formStatus p2 = error /\
  formStatus (advance 4000 p2) = idle /\
  formData (advance 4000 p2) = mkForm "Ada" "ada@example.org" "hello".
Proof.
  intros p p2.
  pose proof (C4_contact_form_error_path p (Json (JBool false)) 250) as H.
  assert (Hne : forall s : string, String.eqb s EmptyString = false -> s <> EmptyString)
    by (intros s; apply String.eqb_neq).
  specialize (H (Hne "Ada"%string eq_refl)
                (Hne "ada@example.org"%string eq_refl)
                (Hne "hello"%string eq_refl) eq_refl ltac:(discriminate)).
  cbv zeta in H. repeat split; apply H.
Defined.

(** C5. A submission attempt with an empty field only shows the alert: the
    status is what it was, so an idle form stays idle, also as time passes,
    and no request is issued and no timeout registered. *)
Theorem C5_contact_form_empty_field_blocked (p : Page) :
  name (formData p) = EmptyString \/ email (formData p) = EmptyString \/
  message (formData p) = EmptyString ->
  handleSubmit p = alert "Please fill in all fields." p /\
  formStatus (handleSubmit p) = formStatus p /\
  requests (handleSubmit p) = requests p /\
  timeouts (handleSubmit p) = timeouts p /\
  (formStatus p = idle ->
   formStatus (handleSubmit p) = idle /\
   forall ms, formStatus (advance ms (handleSubmit p)) = idle /\
              requests (advance ms (handleSubmit p)) = requests p).
Proof.
  intros H. rewrite (handleSubmit_blocked p H).
  do 4 (split; [reflexivity|]).
  intros Hidle. split; [exact Hidle|].
  intros ms. split; [|reflexivity].
  now apply advance_idle.
Qed.

(** A form whose message is still empty. *)
Lemma C5_contact_form_witness :
  let p := onChange FEmail "ada@example.org" (onChange FName "Ada" initial) in
  formStatus (handleSubmit p) = idle /\ requests (handleSubmit p) = [].
Proof.
  intros p.
  pose proof (C5_contact_form_empty_field_blocked p
                (or_intror (or_intror eq_refl))) as H.
  destruct H as (_ & _ & Hreq & _ & Hidle).
  split; [exact (proj1 (Hidle eq_refl)) | exact Hreq].
Defined.

End FormProps.

(** ** ThreeScene: the frame *)

Module FrameProps.
Import Scene.
Local Open Scope R_scope.

Lemma updateConnections_with_lines (i : Instance) (h : Heap) :
  exists ch ls, fst (updateConnections i h) = with_lines i ch ls.
Proof.
  unfold updateConnections.
  destruct (connect_all (nodes i) _) as [[ch ls] h']. now exists ch, ls.
Qed.

(** A frame leaves the objects as [animate_objects] set them; only the lines
    may differ. *)
Lemma animate_with_lines (elapsed : R) (i : Instance) (e : Env) :
  exists ch ls,
    fst (animate elapsed i e) =
    with_lines (animate_objects elapsed (next_frame e) i) ch ls.
Proof.
  unfold animate. destruct (connections_due elapsed).
  - destruct (updateConnections_with_lines
                (animate_objects elapsed (next_frame e) i) (heap e))
      as (ch & ls & H).
    destruct (updateConnections _ (heap e)) as [i' h'].
    now exists ch, ls.
  - now exists (children i), (connectionLines i).
Qed.

Lemma nth_error_map_combine_seq {A B : Type} (f : nat * A -> B) (l : list A)
  (s k : nat) :
  nth_error (map f (combine (seq s (length l)) l)) k =
  option_map (fun x => f ((s + k)%nat, x)) (nth_error l k).
Proof.
  revert s k. induction l as [|a l IH]; intros s k.
  - now destruct k.
  - destruct k as [|k]; cbn.
    + now rewrite Nat.add_0_r.
    + rewrite IH. now replace (S s + k)%nat with (s + S k)%nat by lia.
Qed.

Lemma nth_error_map_indexed {A B : Type} (f : nat * A -> B) (l : list A)
  (k : nat) :
  nth_error (map f (indexed l)) k =
  option_map (fun x => f (k, x)) (nth_error l k).
Proof. apply (nth_error_map_combine_seq f l 0 k). Qed.

Lemma animate_nodes_app (ts1 ts2 : list R) (ns : list Node) :
  animate_nodes (ts1 ++ ts2) ns = animate_nodes ts2 (animate_nodes ts1 ns).
Proof. unfold animate_nodes. apply fold_left_app. Qed.

Lemma animate_nodes_nth (ts : list R) (ns : list Node) (k : nat) :
  nth_error (animate_nodes ts ns) k =
  option_map (fun node => fold_left (fun n t => animate_node t n) ts node)
             (nth_error ns k).
Proof.
  revert ns. induction ts as [|t ts IH]; intros ns.
  - cbn. now destruct (nth_error ns k).
  - cbn [animate_nodes fold_left]. fold (animate_nodes ts (map (animate_node t) ns)).
    rewrite IH, nth_error_map. now destruct (nth_error ns k).
Qed.

(** The accumulated part of a node after a run of frames: it counts the
    frames and ignores their clock readings. *)
Lemma node_accumulates (ts : list R) (node : Node) :
  let node' := fold_left (fun n t => animate_node t n) ts node in
  angle node' = angle node + INR (length ts) * (speed node * 0.01) /\
  vx (rotation (node_mesh node')) =
    vx (rotation (node_mesh node)) + INR (length ts) * 0.02 /\
  vy (rotation (node_mesh node')) =
    vy (rotation (node_mesh node)) + INR (length ts) * 0.03 /\
  node_parameters node' = node_parameters node.
Proof.
  revert node. induction ts as [|t ts IH]; intros node.
  - cbn. repeat split; lra.
  - cbn [fold_left]. destruct (IH (animate_node t node)) as (Ha & Hx & Hy & Hp).
    cbv zeta. rewrite Ha, Hx, Hy, Hp.
    change (length (t :: ts)) with (S (length ts)). rewrite S_INR.
    cbn. repeat split; lra.
Qed.

(** C1, as the code has it. In a frame with clock reading [elapsed] every
    object is set from [elapsed], its own static parameters and its own
    previous record, and from no other object.  The rotations of the central
    sphere and of the core, the rotation of a ring about its axis (with the
    parity of its index), the positions of the two moving lights and the
    vertical positions of nodes and floating shapes are functions of
    [elapsed] and static parameters.  The orbital angle of a node, from which
    its horizontal position is taken, and the x and y rotations of nodes and
    shapes advance by a fixed increment per frame, whatever the clock reads;
    the camera moves from its previous position towards the smoothed
    pointer.  The static parameters never change. *)
Theorem C1_animation_rules_per_object (elapsed : R) (i : Instance) (e : Env) :
  rotation (centralSphere (fst (animate elapsed i e))) =
    vec3 (elapsed * 0.05) (elapsed * 0.1) (vz (rotation (centralSphere i))) /\
  rotation (core (fst (animate elapsed i e))) =
    vec3 (elapsed * 0.2) (- elapsed * 0.3) (vz (rotation (core i))) /\
  (forall k, nth_error (rings (fst (animate elapsed i e))) k =
             option_map (fun ring => animate_ring elapsed (k, ring))
                        (nth_error (rings i) k)) /\
  (forall k ring,
     vz (rotation (ring_mesh (animate_ring elapsed (k, ring)))) =
       elapsed * 0.1 * (if Nat.even k then 1 else -1)) /\
  pointLight1 (fst (animate elapsed i e)) =
    vec3 (sin (elapsed * 0.5) * 4) (vy (pointLight1 i))
         (cos (elapsed * 0.5) * 4) /\
  pointLight2 (fst (animate elapsed i e)) =
    vec3 (cos (elapsed * 0.3) * 3) (vy (pointLight2 i))
         (sin (elapsed * 0.3) * 3) /\
  (let mouseX := fst (mouse i) + (fst (targetMouse i) - fst (mouse i)) * 0.05 in
   let mouseY := snd (mouse i) + (snd (targetMouse i) - snd (mouse i)) * 0.05 in
   camera (fst (animate elapsed i e)) =
     vec3 (vx (camera i) + (mouseX * 2 - vx (camera i)) * 0.02)
          (vy (camera i) + (mouseY * 1.5 + 1 - vy (camera i)) * 0.02)
          (vz (camera i))) /\
  (forall k, nth_error (nodes (fst (animate elapsed i e))) k =
             option_map (animate_node elapsed) (nth_error (nodes i) k)) /\
  (forall k, nth_error (floatingShapes (fst (animate elapsed i e))) k =
             option_map (animate_shape elapsed)
                        (nth_error (floatingShapes i) k)) /\
  (forall node,
     vy (position (node_mesh (animate_node elapsed node))) =
       yOffset node + sin (elapsed * ySpeed node) * 0.5 /\
     node_parameters (animate_node elapsed node) = node_parameters node /\
     angle (animate_node elapsed node) = angle node + speed node * 0.01 /\
     vx (position (node_mesh (animate_node elapsed node))) =
       cos (angle node + speed node * 0.01) * radius node /\
     vz (position (node_mesh (animate_node elapsed node))) =
       sin (angle node + speed node * 0.01) * radius node /\
     vx (rotation (node_mesh (animate_node elapsed node))) =
       vx (rotation (node_mesh node)) + 0.02 /\
     vy (rotation (node_mesh (animate_node elapsed node))) =
       vy (rotation (node_mesh node)) + 0.03) /\
  (forall shape,
     vy (position (shape_mesh (animate_shape elapsed shape))) =
       vy (initialPos shape)
       + sin (elapsed * floatSpeed shape) * floatAmp shape /\
     shape_parameters (animate_shape elapsed shape) = shape_parameters shape /\
     vx (rotation (shape_mesh (animate_shape elapsed shape))) =
       vx (rotation (shape_mesh shape)) + fst (rotSpeed shape) /\
     vy (rotation (shape_mesh (animate_shape elapsed shape))) =
       vy (rotation (shape_mesh shape)) + snd (rotSpeed shape)) /\
  (forall ts node,
     angle (fold_left (fun n t => animate_node t n) ts node) =
       angle node + INR (length ts) * (speed node * 0.01)).
Proof.
  destruct (animate_with_lines elapsed i e) as (ch & ls & ->).
  cbn [with_lines animate_objects centralSphere core rings pointLight1
       pointLight2 camera nodes floatingShapes set_rotation rotation].
  do 2 (split; [reflexivity|]).
  split; [intros k; apply nth_error_map_indexed|].
  split; [reflexivity|].
  do 3 (split; [reflexivity|]).
  split; [intros k; apply nth_error_map|].
  split; [intros k; apply nth_error_map|].
  split; [intros node; repeat split|].
  split; [intros shape; repeat split|].
  intros ts node. apply (node_accumulates ts node).
Qed.

(** C1 as stated fails: two frames with the same clock reading on a node with
    the same static parameters give different positions and rotations,
    because the node's angle and rotation are accumulated from frame to
    frame. *)
Lemma C1_counterexample_accumulated_angle :
  let node := mkNode (mkMesh (vec3 2 0 0) origin 11 12) 0 2 0 0.2 0.5 in
  let node' := animate_node 0 node in
  node_parameters node' = node_parameters node /\
  vx (position (node_mesh (animate_node 0 node'))) <>
    vx (position (node_mesh (animate_node 0 node))) /\
  vx (rotation (node_mesh (animate_node 0 node'))) <>
    vx (rotation (node_mesh (animate_node 0 node))).
Proof.
  cbv zeta. split; [reflexivity|]. split.
  - cbn. intros H.
    assert (Hpi : 2 < PI) by (pose proof PI2_1; lra).
    assert (Hcos : cos (0 + 0.2 * 0.01 + 0.2 * 0.01) < cos (0 + 0.2 * 0.01)).
    { apply cos_decreasing_1; lra. }
    lra.
  - cbn. lra.
Qed.

End FrameProps.

(** ** ThreeScene: connector lines *)

Module ConnectorProps.
Import Scene.
Local Open Scope R_scope.

(** *** Folds *)

Lemma fold_left_ext {St A : Type} (f g : St -> A -> St) (l : list A) (s : St) :
  (forall s x, In x l -> f s x = g s x) -> fold_left f l s = fold_left g l s.
Proof.
  revert s. induction l as [|x l IH]; intros s H; [reflexivity|].
  cbn. rewrite (H s x) by now left.
  apply IH. intros s' y Hy. apply H. now right.
Qed.

Lemma fold_left_flat_map {St A B : Type} (f : St -> B -> St) (g : A -> list B)
  (l : list A) (s : St) :
  fold_left f (flat_map g l) s = fold_left (fun s x => fold_left f (g x) s) l s.
Proof.
  revert s. induction l as [|x l IH]; intros s; [reflexivity|].
  cbn. now rewrite fold_left_app, IH.
Qed.

Lemma fold_left_map {St A B : Type} (f : St -> B -> St) (g : A -> B)
  (l : list A) (s : St) :
  fold_left f (map g l) s = fold_left (fun s x => f s (g x)) l s.
Proof.
  revert s. induction l as [|x l IH]; intros s; [reflexivity|].
  cbn. now rewrite IH.
Qed.

Lemma fold_left_filter {St A : Type} (f : St -> A -> St) (c : A -> bool)
  (l : list A) (s : St) :
  fold_left f (filter c l) s =
  fold_left (fun s x => if c x then f s x else s) l s.
Proof.
  revert s. induction l as [|x l IH]; intros s; [reflexivity|].
  cbn. destruct (c x); cbn; now rewrite IH.
Qed.

Lemma fold_left_combine_seq {St A : Type} (f : St -> nat * A -> St)
  (g : St -> nat -> St) (l : list A) (k : nat) (s : St) :
  (forall i x s, nth_error l i = Some x -> f s ((k + i)%nat, x) = g s (k + i)%nat) ->
  fold_left f (combine (seq k (length l)) l) s =
  fold_left g (seq k (length l)) s.
Proof.
  revert k s. induction l as [|a l IH]; intros k s H; [reflexivity|].
  cbn [length seq combine fold_left].
  pose proof (H 0%nat a s eq_refl) as H0. rewrite Nat.add_0_r in H0.
  rewrite H0. apply IH. intros i x s' Hx.
  replace (S k + i)%nat with (k + S i)%nat by lia. now apply H.
Qed.

Lemma fold_left_indexed {St A : Type} (f : St -> nat * A -> St)
  (g : St -> nat -> St) (l : list A) (s : St) :
  (forall i x s, nth_error l i = Some x -> f s (i, x) = g s i) ->
  fold_left f (indexed l) s = fold_left g (seq 0 (length l)) s.
Proof.
  intros H. unfold indexed. apply fold_left_combine_seq.
  intros i x s'. cbn. apply H.
Qed.

(** *** The two loops visit the index pairs [i < j] *)

Lemma connect_connect_pair (ns : list Node) (i j : nat) (n1 n2 : Node) s :
  nth_error ns i = Some n1 -> nth_error ns j = Some n2 ->
  connect n1 n2 s = connect_pair ns s (i, j).
Proof.
  intros H1 H2. destruct s as [[ch ls] h].
  unfold connect, connect_pair, within_reach, pair_distance, node_position.
  cbn [fst snd]. rewrite H1, H2.
  now destruct (Rlt_dec _ 3).
Qed.

Lemma connect_all_pairs (ns : list Node) s :
  connect_all ns s = fold_left (connect_pair ns) (pairs (length ns)) s.
Proof.
  unfold connect_all, pairs.
  rewrite fold_left_flat_map.
  apply fold_left_indexed. intros i n1 s1 H1.
  rewrite fold_left_map, fold_left_filter.
  apply fold_left_indexed. intros j n2 s2 H2.
  destruct (j <=? i)%nat; [reflexivity|]. cbn [negb].
  now apply connect_connect_pair.
Qed.




(** *** The lines created *)

Lemma fold_connect_pair (ns : list Node) (ps : list (nat * nat)) ch ls h :
  fold_left (connect_pair ns) ps (ch, ls, h) =
  let new := lines_for ns (length h) (filter (within_reach ns) ps) in
  (ch ++ map Segment new, ls ++ new, h ++ line_resources new)%list.
Proof.
  revert ch ls h. induction ps as [|p ps IH]; intros ch ls h.
  - cbn. now rewrite !app_nil_r.
  - cbn [fold_left filter]. unfold connect_pair at 2.
    destruct (within_reach ns p).
    + rewrite IH. cbv zeta. rewrite length_app. cbn [length].
      replace (length h + 2)%nat with (S (S (length h))) by lia.
      cbn [lines_for map line_resources flat_map].
      now rewrite <- !app_assoc.
    + apply IH.
Qed.


Lemma lines_for_ids (ns : list Node) (k : nat) (ps : list (nat * nat)) l :
  In l (lines_for ns k ps) ->
  (k <= line_geometry l < k + 2 * length ps)%nat /\
  line_material l = S (line_geometry l).
Proof.
  revert k. induction ps as [|p ps IH]; intros k; [contradiction|].
  cbn [lines_for length]. intros [<-|Hin].
  - cbn. lia.
  - destruct (IH _ Hin) as [Hb Hm]. split; [lia|assumption].
Qed.


Lemma segments_app (ch1 ch2 : list Child) :
  segments (ch1 ++ ch2) = (segments ch1 ++ segments ch2)%list.
Proof. unfold segments. apply flat_map_app. Qed.

Lemma fixtures_app (ch1 ch2 : list Child) :
  fixtures (ch1 ++ ch2) = (fixtures ch1 ++ fixtures ch2)%list.
Proof. unfold fixtures. apply flat_map_app. Qed.

Lemma segments_map_Segment (ls : list Line) : segments (map Segment ls) = ls.
Proof. induction ls as [|l ls IH]; [reflexivity|]. cbn. now f_equal. Qed.

Lemma fixtures_map_Segment (ls : list Line) : fixtures (map Segment ls) = [].
Proof. induction ls as [|l ls IH]; [reflexivity|]. exact IH. Qed.

(** *** The lines discarded *)

Lemma scene_remove_head (l : Line) (ls : list Line) (ch : list Child) :
  segments ch = l :: ls ->
  segments (scene_remove l ch) = ls /\
  fixtures (scene_remove l ch) = fixtures ch.
Proof.
  induction ch as [|c ch IH]; intros H; [discriminate|].
  destruct c as [s|l'].
  - cbn. destruct (IH H) as [H1 H2]. split; [assumption|].
    cbn in H2 |- *. now f_equal.
  - cbn in H. inversion H; subst. cbn. rewrite Nat.eqb_refl.
    split; reflexivity.
Qed.

Lemma scene_remove_all (ls : list Line) (ch : list Child) :
  segments ch = ls ->
  segments (fold_left (fun ch l => scene_remove l ch) ls ch) = [] /\
  fixtures (fold_left (fun ch l => scene_remove l ch) ls ch) = fixtures ch.
Proof.
  revert ch. induction ls as [|l ls IH]; intros ch H.
  - cbn. now split.
  - cbn [fold_left]. destruct (scene_remove_head l ls ch H) as [H1 H2].
    destruct (IH _ H1) as [H3 H4]. split; [assumption|congruence].
Qed.



Lemma within_reach_spec (ns : list Node) (p : nat * nat) :
  within_reach ns p = true <-> pair_distance ns p < 3.
Proof.
  unfold within_reach.
  destruct (Rlt_dec (pair_distance ns p) 3) as [H|H]; split; intros H';
    trivial; try discriminate; contradiction.
Qed.

(** The result of [updateConnections] in closed form. *)
Lemma updateConnections_lines (i : Instance) (h : Heap) :
  lines_tracked i h ->
  let ps := filter (within_reach (nodes i)) (pairs (length (nodes i))) in
  let new := lines_for (nodes i) (length h) ps in
  connectionLines (fst (updateConnections i h)) = new /\
  segments (children (fst (updateConnections i h))) = new /\
  fixtures (children (fst (updateConnections i h))) = fixtures (children i) /\
  nodes (fst (updateConnections i h)) = nodes i /\
  snd (updateConnections i h) = (h ++ line_resources new)%list.
Proof.
  intros [Hseg _]. unfold updateConnections.
  rewrite connect_all_pairs, fold_connect_pair. cbv zeta. cbn [fst snd].
  destruct (scene_remove_all _ _ Hseg) as [H1 H2].
  cbn. rewrite segments_app, fixtures_app, H1, H2.
  rewrite segments_map_Segment, fixtures_map_Segment, app_nil_r.
  repeat split.
Qed.

Lemma lines_for_length (ns : list Node) (k : nat) (ps : list (nat * nat)) :
  length (lines_for ns k ps) = length ps.
Proof.
  revert k. induction ps as [|p ps IH]; intros k; [reflexivity|].
  cbn. now rewrite IH.
Qed.

Lemma line_resources_length (ls : list Line) :
  length (line_resources ls) = (2 * length ls)%nat.
Proof.
  induction ls as [|l ls IH]; [reflexivity|].
  change (line_resources (l :: ls))
    with (fresh Geometry "BufferGeometry"
          :: fresh Material "LineBasicMaterial" :: line_resources ls).
  cbn [length]. rewrite IH. lia.
Qed.

(** The distance of two points on the x axis. *)
Lemma distanceTo_x_axis (a b : R) :
  a <= b -> distanceTo (vec3 a 0 0) (vec3 b 0 0) = b - a.
Proof.
  intros Hab. unfold distanceTo. cbn.
  replace ((a - b) * (a - b) + (0 - 0) * (0 - 0) + (0 - 0) * (0 - 0))
    with ((b - a) * (b - a)) by ring.
  apply sqrt_square. lra.
Qed.

(** Three nodes on a line at 0, 1 and 5: only the first two are joined. *)
Example connect_three_nodes :
  let at_x := fun x => mkNode (mkMesh (vec3 x 0 0) origin 0 0) 0 x 0 0 0 in
  let ns := [at_x 0; at_x 1; at_x 5] in
  connect_all ns ([], [], []) =
  ([Segment (mkLine 0 1 (vec3 0 0 0) (vec3 1 0 0) (line_opacity 1))],
   [mkLine 0 1 (vec3 0 0 0) (vec3 1 0 0) (line_opacity 1)],
   [fresh Geometry "BufferGeometry"; fresh Material "LineBasicMaterial"]).
Proof.
  intros at_x ns. rewrite connect_all_pairs, fold_connect_pair.
  assert (H01 : within_reach ns (0, 1)%nat = true).
  { apply within_reach_spec. unfold pair_distance. cbn.
    rewrite distanceTo_x_axis; lra. }
  assert (H02 : within_reach ns (0, 2)%nat = false).
  { apply not_true_is_false. rewrite within_reach_spec.
    unfold pair_distance. cbn. rewrite distanceTo_x_axis; lra. }
  assert (H12 : within_reach ns (1, 2)%nat = false).
  { apply not_true_is_false. rewrite within_reach_spec.
    unfold pair_distance. cbn. rewrite distanceTo_x_axis; lra. }
  change (pairs (length ns)) with [(0, 1); (0, 2); (1, 2)]%nat.
  cbn [filter]. rewrite H01, H02, H12.
  cbn [lines_for length map line_resources flat_map app fst snd].
  unfold pair_distance, node_position. cbn [fst snd nth_error ns].
  cbn [node_mesh position at_x]. rewrite distanceTo_x_axis by lra.
  replace (1 - 0) with 1 by ring. reflexivity.
Qed.

(** [updateConnections] re-establishes the tracking of the lines. *)
Lemma updateConnections_tracked (i : Instance) (h : Heap) :
  lines_tracked i h ->
  lines_tracked (fst (updateConnections i h)) (snd (updateConnections i h)).
Proof.
  intros Htr.
  destruct (updateConnections_lines i h Htr) as (Hls & Hseg & _ & _ & Hh).
  cbv zeta in Hls, Hseg, Hh. split; [congruence|].
  rewrite Hh, Hls. apply Forall_forall. intros l Hl.
  pose proof (lines_for_ids _ _ _ _ Hl) as [Hb _].
  rewrite length_app, line_resources_length, lines_for_length. lia.
Qed.

Lemma animate_tracked (elapsed : R) (i : Instance) (e : Env) :
  lines_tracked i (heap e) ->
  lines_tracked (fst (animate elapsed i e)) (heap (snd (animate elapsed i e))).
Proof.
  intros Htr. unfold animate. destruct (connections_due elapsed).
  - match goal with
    | |- context [updateConnections ?m ?h] =>
        pose proof (updateConnections_tracked m h Htr) as H;
        destruct (updateConnections m h) as [i' h']
    end.
    exact H.
  - exact Htr.
Qed.

(** The tracking of the lines holds in every state of a running scene, so
    that every recomputation starts from it. *)
Lemma running_tracked (t : Theme) (random : nat -> R) (elapsed0 : R)
  (i : Instance) (e : Env) :
  running t random elapsed0 i e -> lines_tracked i (heap e).
Proof.
  induction 1 as [i e Hm|i e elapsed n _ IH|i e fx fy _ IH].
  - unfold mount in Hm.
    match type of Hm with
    | context [animate elapsed0 ?b ?e1] =>
        assert (Hb : lines_tracked b (heap e1))
          by (split; [reflexivity|constructor]);
        pose proof (animate_tracked elapsed0 b e1 Hb) as H;
        destruct (animate elapsed0 b e1) as [i1 e2]
    end.
    inversion Hm; subst. exact H.
  - unfold frame. destruct (existsb (Nat.eqb n) (frames e)); [|exact IH].
    now apply animate_tracked.
  - exact IH.
Qed.



End ConnectorProps.

(** ** ThreeScene: mount and cleanup *)

Module LifecycleProps.
Import Scene.
Local Open Scope string_scope.
Local Open Scope list_scope.

Lemma dispose_at_length (h : Heap) (r : Resource) (rest : Heap) :
  dispose (length h) (h ++ r :: rest) = (h ++ released r :: rest)%list.
Proof.
  induction h as [|x h IH]; [reflexivity|].
  cbn. now rewrite IH.
Qed.

Lemma dispose_line_pair (h : Heap) (g m : Resource) (rest : Heap) :
  dispose (S (length h)) (dispose (length h) (h ++ g :: m :: rest)) =
  ((h ++ [released g; released m]) ++ rest)%list.
Proof.
  rewrite dispose_at_length.
  replace (h ++ released g :: m :: rest)%list
    with ((h ++ [released g]) ++ m :: rest)%list
    by now rewrite <- app_assoc.
  replace (S (length h)) with (length (h ++ [released g]))
    by (rewrite length_app; cbn; lia).
  rewrite dispose_at_length. now rewrite <- !app_assoc.
Qed.

(** Releasing the geometry and material of every line releases exactly the
    resources allocated for the lines. *)
Lemma dispose_lines (ns : list Node) (ps : list (nat * nat)) (h : Heap) :
  fold_left (fun h l => dispose (line_material l) (dispose (line_geometry l) h))
            (lines_for ns (length h) ps)
            (h ++ line_resources (lines_for ns (length h) ps))%list =
  (h ++ map released (line_resources (lines_for ns (length h) ps)))%list.
Proof.
  revert h. induction ps as [|p ps IH]; intros h; [reflexivity|].
  cbn [lines_for fold_left line_geometry line_material].
  match goal with
  | |- context [line_resources (?l :: ?ls)] =>
      change (line_resources (l :: ls))
        with (fresh Geometry "BufferGeometry"
              :: fresh Material "LineBasicMaterial" :: line_resources ls)
  end.
  rewrite dispose_line_pair.
  set (h2 := (h ++ [released (fresh Geometry "BufferGeometry");
                    released (fresh Material "LineBasicMaterial")])%list).
  assert (Hlen : S (S (length h)) = length h2).
  { unfold h2. rewrite length_app. cbn. lia. }
  rewrite Hlen, IH. unfold h2. now rewrite <- app_assoc.
Qed.

Lemma retained_released (h : Heap) : retained (map released h) = [].
Proof. induction h as [|r h IH]; [reflexivity|]. exact IH. Qed.

Lemma retained_app (h1 h2 : Heap) :
  retained (h1 ++ h2) = (retained h1 ++ retained h2)%list.
Proof. unfold retained. apply filter_app. Qed.

(** What a frame does to the environment of a scene that shows no line yet. *)
Lemma first_frame (elapsed : R) (i : Instance) (e : Env) :
  connectionLines i = [] -> segments (children i) = [] ->
  let r := animate elapsed i e in
  listeners (snd r) = listeners e /\
  frames (snd r) = (frames e ++ [next_frame e])%list /\
  animId (fst r) = Some (next_frame e) /\
  container (snd r) = container e /\
  renderer (fst r) = renderer i /\
  exists ns ps,
    connectionLines (fst r) = lines_for ns (length (heap e)) ps /\
    heap (snd r) =
      (heap e ++ line_resources (lines_for ns (length (heap e)) ps))%list.
Proof.
  intros Hls Hseg. unfold animate. destruct (connections_due elapsed).
  - match goal with
    | |- context [updateConnections ?m ?h] =>
        set (moved := m);
        pose proof (ConnectorProps.updateConnections_lines moved h) as Hup;
        destruct (FrameProps.updateConnections_with_lines moved h) as (ch & ls & Hwl);
        destruct (updateConnections moved h) as [i' h'] eqn:E
    end.
    cbn [fst snd] in *.
    assert (Htr : lines_tracked moved (heap e)).
    { split.
      - change (segments (children i) = connectionLines i).
        now rewrite Hseg, Hls.
      - change (Forall (fun l => (line_geometry l < length (heap e))%nat)
                       (connectionLines i)).
        rewrite Hls. constructor. }
    destruct (Hup Htr) as (Hc & _ & _ & _ & Hh).
    cbn [listeners frames container heap].
    rewrite Hwl at 1 2. cbn [animId renderer with_lines moved].
    do 5 (split; [reflexivity|]).
    eexists _, _. split; [exact Hc|exact Hh].
  - cbn [fst snd listeners frames container heap animId renderer
         connectionLines].
    do 5 (split; [reflexivity|]).
    exists [], []. cbn. rewrite app_nil_r. split; assumption || reflexivity.
Qed.

(** Without a container the effect does nothing and returns no cleanup. *)
Remark mount_without_container (t : Theme) (random : nat -> R) (elapsed0 : R)
  (e : Env) :
  mount t false random elapsed0 e = (None, e) /\ unmount None e = e.
Proof. split; reflexivity. Qed.

Lemma built_no_lines (random : nat -> R) (base : nat) (t : Theme) :
  connectionLines (built random base t) = [] /\
  segments (children (built random base t)) = [].
Proof. split; reflexivity. Qed.

(** C6, evaluated on the code. Mounting the scene in an environment where
    nothing is registered, for any theme, any outcome of [Math.random] and
    any first clock reading, and unmounting it at once: both listeners, the
    requested frame and the canvas are gone, and the renderer and the
    connector lines are released, but the 49 geometries and materials of the
    meshes, points and line template that the mount created are still
    retained. *)
Theorem C6_mount_unmount_retains_resources
  (t : Theme) (random : nat -> R) (elapsed0 : R) :
  let m := mount t true random elapsed0 empty_env in
  let e2 := unmount (fst m) (snd m) in
  listeners (snd m) =
    [("mousemove", handleMouseMove 0); ("resize", handleResize 0)] /\
  frames (snd m) = [0%nat] /\
  container (snd m) = [0%nat] /\
  listeners e2 = [] /\
  frames e2 = [] /\
  container e2 = [] /\
  retained (heap e2) = tl allocations /\
  length (retained (heap e2)) = 49%nat.
Proof.
  unfold mount. cbn [length heap empty_env].
  match goal with
  | |- context [animate elapsed0 ?i ?e] =>
      destruct (built_no_lines random 0 t) as [Hls Hseg];
      pose proof (first_frame elapsed0 i e Hls Hseg) as H;
      destruct (animate elapsed0 i e) as [i' e']
  end.
  cbv zeta in H. cbn [fst snd listeners frames container next_frame heap] in H.
  destruct H as (Hl & Hf & Ha & Hc & Hr & ns & ps & Hlines & Hheap).
  cbv zeta. cbn [fst snd unmount cleanup listeners frames container heap].
  rewrite Hl, Hf, Ha, Hc, Hr, Hlines, Hheap.
  cbn [app renderer built].
  split; [reflexivity|]. split; [reflexivity|]. split; [reflexivity|].
  split; [reflexivity|]. split; [reflexivity|]. split; [reflexivity|].
  assert (Hret : retained
    (dispose 0
       (fold_left
          (fun h l => dispose (line_material l) (dispose (line_geometry l) h))
          (lines_for ns (length allocations) ps)
          (allocations ++ line_resources (lines_for ns (length allocations) ps))%list))
    = tl allocations).
  { rewrite dispose_lines.
    change (dispose 0 (allocations ++ ?x)%list)
      with (dispose 0 allocations ++ x)%list.
    now rewrite retained_app, retained_released, app_nil_r. }
  split; [exact Hret|]. now rewrite Hret.
Qed.

End LifecycleProps.

(** ** Portfolio: more on the contact form *)

Module FormExtra.
Import PageShell PageRun.
Local Open Scope string_scope.
Local Open Scope list_scope.
Local Open Scope Z_scope.

Lemma accepts_filled (p : Page) :
  accepts p = true <->
  name (formData p) <> EmptyString /\ email (formData p) <> EmptyString /\
  message (formData p) <> EmptyString.
Proof.
  unfold accepts. rewrite negb_true_iff, !orb_false_iff.
  rewrite !FormProps.falsy_false. tauto.
Qed.

Lemma handleSubmit_accepts (p : Page) :
  handleSubmit p =
  if accepts p then fetch (payload (formData p)) (setFormStatus sending p)
  else alert "Please fill in all fields." p.
Proof.
  unfold handleSubmit, accepts.
  now destruct (falsy (name (formData p)) || falsy (email (formData p))
                || falsy (message (formData p))).
Qed.

(** The requests after one event. *)
Lemma handle_requests (p : Page) (ev : Event) :
  requests (handle p ev) =
  requests p ++ match ev with
                | Submit => if accepts p then [payload (formData p)] else []
                | _ => []
                end.
Proof.
  destruct ev as [es|f v| |r|ms|]; cbn [handle].
  - rewrite (TrackerProps.onIntersect_frame es p). cbn. now rewrite app_nil_r.
  - cbn. now rewrite app_nil_r.
  - rewrite handleSubmit_accepts. destruct (accepts p); cbn;
      [reflexivity|now rewrite app_nil_r].
  - destruct r as [data|]; cbn; [destruct (truthy data)|]; cbn;
      now rewrite app_nil_r.
  - cbn. now rewrite app_nil_r.
  - cbn. now rewrite app_nil_r.
Qed.

(** X1. One request per accepted submission and none from anything else: along
    any run of events the requests issued are, in order, the bodies built by
    the submissions that passed the presence check; replies, timeouts, edits,
    theme toggles and observer deliveries issue none. *)
Theorem requests_are_accepted_submissions (evs : list Event) (p : Page) :
  requests (run evs p) = requests p ++ sent evs p.
Proof.
  revert p. induction evs as [|ev evs IH]; intros p.
  - cbn. now rewrite app_nil_r.
  - cbn [run fold_left sent]. fold (run evs (handle p ev)).
    rewrite IH, handle_requests. now rewrite <- app_assoc.
Qed.

Lemma payload_well_formed (p : Page) :
  accepts p = true -> well_formed (payload (formData p)).
Proof.
  intros H. apply accepts_filled in H. destruct H as (Hn & He & Hm).
  unfold well_formed, payload. cbn. repeat split; assumption.
Qed.

(** X2. No request with an empty field is ever sent: in every reachable state
    each request issued so far carries a non-empty name, email and message,
    the subject built from the name, and the fixed sender name and key. *)
Theorem requests_well_formed (document : list Element) (p : Page) :
  reachable document p -> Forall well_formed (requests p).
Proof.
  induction 1 as [|p ev _ IH _]; [constructor|].
  rewrite handle_requests. apply Forall_app. split; [exact IH|].
  destruct ev; try constructor.
  destruct (accepts p) eqn:E; constructor; [|constructor].
  now apply payload_well_formed.
Qed.

(** A request sent after typing into the three fields. *)
Lemma requests_well_formed_witness :
  Forall well_formed
    (requests
       (handle
          (handle
             (handle (handle initial (Change FName "Ada"))
                     (Change FEmail "ada@example.org"))
             (Change FMessage "hello"))
          Submit)).
Proof.
  apply (requests_well_formed []).
  repeat (apply reach_step; [|exact I]). apply reach_initial.
Defined.

(** X3. The success path: a submission with the three fields filled in whose
    reply has a truthy [success] field sends the typed values, then shows
    [success] with the three fields emptied, and is [idle] 5 seconds after
    the reply; with no earlier timeout pending it shows [success] until
    then. *)
Theorem contact_form_success_path (p : Page) (v : JsValue) (wait : Z) :
  name (formData p) <> EmptyString -> email (formData p) <> EmptyString ->
  message (formData p) <> EmptyString ->
  truthy v = true ->
  let p1 := handleSubmit p in
  let p2 := handleReply (Json v) (advance wait p1) in
  requests p2 = requests p ++ [payload (formData p)] /\
  formStatus p2 = success /\
  formData p2 = mkForm EmptyString EmptyString EmptyString /\
  (timeouts p = [] ->
   forall ms, 0 <= ms < 5000 -> formStatus (advance ms p2) = success) /\
  formStatus (advance 5000 p2) = idle /\
  formData (advance 5000 p2) = mkForm EmptyString EmptyString EmptyString.
Proof.
  intros Hn He Hm Hv p1 p2. subst p1 p2.
  rewrite (FormProps.handleSubmit_filled p Hn He Hm).
  cbn [handleReply]. rewrite Hv.
  do 3 (split; [reflexivity|]).
  split; [|split; [|reflexivity]].
  - intros Hno ms Hms. rewrite FormProps.advance_not_due; [reflexivity|].
    cbn. rewrite Hno. cbn. intros d [<-|[]]. lia.
  - apply FormProps.advance_due with (d := now p + wait + 5000); [|cbn; lia].
    cbn. apply in_or_app. right. now left.
Qed.

(** A filled form and a reply [{ success: true }] after 250ms. *)
Lemma contact_form_success_witness :
  let p := onChange FMessage "hello"
             (onChange FEmail "ada@example.org" (onChange FName "Ada" initial)) in
  let p2 := handleReply (Json (JBool true)) (advance 250 (handleSubmit p)) in
  formStatus p2 = success /\
  formData p2 = mkForm EmptyString EmptyString EmptyString /\
  formStatus (advance 5000 p2) = idle.
Proof.
  intros p p2.
  assert (Hne : forall s : string, String.eqb s EmptyString = false ->
                                   s <> EmptyString)
    by (intros s; apply String.eqb_neq).
  pose proof (contact_form_success_path p (JBool true) 250
                (Hne "Ada"%string eq_refl)
                (Hne "ada@example.org"%string eq_refl)
                (Hne "hello"%string eq_refl) eq_refl) as H.
  cbv zeta in H. destruct H as (_ & H1 & H2 & _ & H3 & _).
  repeat split; assumption.
Defined.

(** X4. A timeout of an earlier submission is not cancelled by a new one: when
    it falls due while the new request is still in flight, the status goes
    from [sending] back to [idle] (and the button is enabled again) although
    no reply has arrived. *)
Theorem stale_timeout_ends_sending (p : Page) (d : Z) :
  name (formData p) <> EmptyString -> email (formData p) <> EmptyString ->
  message (formData p) <> EmptyString ->
  In d (timeouts p) -> now p <= d ->
  let p1 := handleSubmit p in
  formStatus p1 = sending /\
  (forall ms, 0 <= ms -> (forall d', In d' (timeouts p) -> now p + ms < d') ->
     formStatus (advance ms p1) = sending) /\
  formStatus (advance (d - now p) p1) = idle /\
  requests (advance (d - now p) p1) = requests p ++ [payload (formData p)].
Proof.
  intros Hn He Hm Hd Hnow p1. subst p1.
  rewrite (FormProps.handleSubmit_filled p Hn He Hm).
  split; [reflexivity|]. split; [|split; [|reflexivity]].
  - intros ms _ Hlater. rewrite FormProps.advance_not_due; [reflexivity|].
    exact Hlater.
  - apply FormProps.advance_due with (d := d); [exact Hd|cbn; lia].
Qed.

(** A failed submission, then a new one a second later: three seconds on
    the old timeout fires. *)
Lemma stale_timeout_witness :
  let p := onChange FMessage "hello"
             (onChange FEmail "ada@example.org" (onChange FName "Ada" initial)) in
  let q := advance 1000 (handleReply Rejected (handleSubmit p)) in
  formStatus q = error /\
  formStatus (handleSubmit q) = sending /\
  formStatus (advance 3000 (handleSubmit q)) = idle.
Proof.
  intros p q.
  assert (Hne : forall s : string, String.eqb s EmptyString = false ->
                                   s <> EmptyString)
    by (intros s; apply String.eqb_neq).
  pose proof (stale_timeout_ends_sending q 4000
                (Hne "Ada"%string eq_refl)
                (Hne "ada@example.org"%string eq_refl)
                (Hne "hello"%string eq_refl)
                (or_introl eq_refl) ltac:(discriminate)) as H.
  cbv zeta in H. destruct H as (H1 & _ & H2 & _).
  split; [reflexivity|]. split; assumption.
Defined.

End FormExtra.

(** ** Portfolio: invariants of the page *)

Module PageInvariants.
Import PageShell PageRun.
Local Open Scope string_scope.
Local Open Scope list_scope.
Local Open Scope Z_scope.

(** What an event leaves alone, field by field. *)
Lemma handle_clock (p : Page) (ev : Event) :
  match ev with
  | Elapse ms => now (handle p ev) = now p + ms
  | _ => now (handle p ev) = now p
  end.
Proof.
  destruct ev as [es|f v| |r|ms|]; cbn [handle]; try reflexivity.
  - now rewrite (TrackerProps.onIntersect_frame es p).
  - rewrite FormExtra.handleSubmit_accepts. now destruct (accepts p).
  - destruct r as [data|]; cbn; [destruct (truthy data)|]; reflexivity.
Qed.

Lemma handle_theme (p : Page) (ev : Event) :
  match ev with
  | Toggle => True
  | _ => theme (handle p ev) = theme p /\
         stored_theme (handle p ev) = stored_theme p
  end.
Proof.
  destruct ev as [es|f v| |r|ms|]; cbn [handle]; try (split; reflexivity);
    trivial.
  - now rewrite (TrackerProps.onIntersect_frame es p).
  - rewrite FormExtra.handleSubmit_accepts. now destruct (accepts p).
  - destruct r as [data|]; cbn; [destruct (truthy data)|]; split; reflexivity.
Qed.

Lemma filter_none_keeps_all {A : Type} (f : A -> bool) (l : list A) :
  filter f l = [] -> filter (fun x => negb (f x)) l = l.
Proof.
  induction l as [|x l IH]; [reflexivity|].
  cbn. destruct (f x); [discriminate|]. intros H. cbn. now rewrite IH.
Qed.

(** Pending timeouts lie in the future, and a [success] or [error] status
    always has one pending. *)
Lemma reachable_timeouts (document : list Element) (p : Page) :
  reachable document p ->
  Forall (fun d => now p < d) (timeouts p) /\
  (formStatus p = success \/ formStatus p = error -> timeouts p <> []).
Proof.
  induction 1 as [|p ev _ [IHf IHs] _].
  - split; [constructor|]. cbn. intros [H|H]; discriminate.
  - destruct ev as [es|f v| |r|ms|]; cbn [handle].
    + rewrite (TrackerProps.onIntersect_frame es p). now split.
    + now split.
    + rewrite FormExtra.handleSubmit_accepts. destruct (accepts p).
      * split; [exact IHf|]. cbn. intros [H|H]; discriminate.
      * now split.
    + assert (Hadd : forall ms st, 0 < ms ->
                Forall (fun d => now p < d)
                       (timeouts (setTimeout_idle ms (setFormStatus st p)))
                /\ timeouts (setTimeout_idle ms (setFormStatus st p)) <> []).
      { intros ms st Hms. cbn. split.
        - apply Forall_app. split; [exact IHf|]. constructor; [lia|constructor].
        - intros E. now apply app_eq_nil in E as [_ E]. }
      destruct r as [data|]; cbn [handleReply]; [destruct (truthy data)|].
      * destruct (Hadd 5000 success eq_refl) as [H1 H2]. split; [exact H1|].
        intros _. exact H2.
      * destruct (Hadd 4000 error eq_refl) as [H1 H2]. split; [exact H1|].
        intros _. exact H2.
      * destruct (Hadd 4000 error eq_refl) as [H1 H2]. split; [exact H1|].
        intros _. exact H2.
    + cbn. split.
      * apply Forall_forall. intros d Hd. apply filter_In in Hd.
        destruct Hd as [_ Hd]. apply negb_true_iff, Z.leb_gt in Hd. exact Hd.
      * destruct (filter (fun d => d <=? now p + ms) (timeouts p)) eqn:E.
        -- rewrite (filter_none_keeps_all _ _ E). exact IHs.
        -- intros [H|H]; discriminate.
    + now split.
Qed.

(** X5. No stuck outcome: whenever a reachable page shows [success] or [error],
    a timeout is pending in the future, and letting the clock run until it is
    due brings the status back to [idle] with no further event. *)
Theorem outcome_returns_to_idle (document : list Element) (p : Page) :
  reachable document p ->
  formStatus p = success \/ formStatus p = error ->
  exists ms, 0 < ms /\ formStatus (advance ms p) = idle.
Proof.
  intros Hr Hs. destruct (reachable_timeouts document p Hr) as [Hf Hne].
  specialize (Hne Hs). destruct (timeouts p) as [|d l] eqn:E; [congruence|].
  exists (d - now p). rewrite Forall_forall in Hf.
  assert (Hd : now p < d) by (apply Hf; now left).
  split; [lia|].
  apply FormProps.advance_due with (d := d); [rewrite E; now left|lia].
Qed.

(** The page right after a rejected request. *)
Lemma outcome_returns_to_idle_witness :
  let p := handle (handle
             (handle
                (handle (handle initial (Change FName "Ada"))
                        (Change FEmail "ada@example.org"))
                (Change FMessage "hello"))
             Submit) (Settle Rejected) in
  formStatus p = error /\ exists ms, 0 < ms /\ formStatus (advance ms p) = idle.
Proof.
  intros p. split; [reflexivity|].
  apply (outcome_returns_to_idle []).
  - repeat (apply reach_step; [|exact I]). apply reach_initial.
  - now right.
Defined.

(** X6. The stored preference mirrors the theme: in every reachable state local
    storage holds the current theme once a toggle has happened, and the
    theme is the initial dark one as long as nothing was stored. *)
Theorem stored_theme_mirrors_theme (document : list Element) (p : Page) :
  reachable document p ->
  match stored_theme p with
  | Some t => theme p = t
  | None => theme p = dark
  end.
Proof.
  induction 1 as [|p ev _ IH _]; [reflexivity|].
  pose proof (handle_theme p ev) as Hf.
  destruct ev; [| | | | |reflexivity];
    destruct Hf as [Ht Hs]; rewrite Ht, Hs; exact IH.
Qed.

(** Two toggles and an edit in between. *)
Lemma stored_theme_witness :
  let p := handle (handle (handle initial Toggle) (Change FName "Ada")) Toggle in
  theme p = dark /\ stored_theme p = Some dark.
Proof.
  intros p.
  pose proof (stored_theme_mirrors_theme [] p) as H.
  assert (Hr : reachable [] p)
    by (repeat (apply reach_step; [|exact I]); apply reach_initial).
  specialize (H Hr). split; [exact H|reflexivity].
Defined.

Lemma observed_in_document (document : list Element) (el : Element) :
  In el (observed document) -> In el document.
Proof.
  unfold observed. intros H. apply in_flat_map in H.
  destruct H as (i & _ & Hel).
  destruct (getElementById document i) as [el'|] eqn:G; [|contradiction].
  destruct Hel as [<-|[]]. unfold getElementById in G.
  now apply find_some in G.
Qed.

(** Where the current section comes from: besides the initial ["home"], the
    label is always the id of an element of the document that the tracker
    observes, so a section missing from the document is never reported. *)
Lemma active_section_origin (document : list Element) (p : Page) :
  reachable document p ->
  In (activeSection p) sections /\
  (activeSection p = "home" \/
   exists el, In el document /\ In el (observed document) /\
              id el = activeSection p).
Proof.
  induction 1 as [|p ev _ IH Hev].
  - split; [now left|now left].
  - pose proof (TrackerProps.handle_activeSection p ev) as Hframe.
    destruct ev as [es|f v| |r|ms|]; try (rewrite Hframe; exact IH).
    change (Forall (fun e => In (target e) (observed document)) es) in Hev.
    cbn [handle]. rewrite TrackerProps.onIntersect_last.
    destruct (find over_threshold (rev es)) as [e|] eqn:E; [|exact IH].
    apply find_some in E. destruct E as [Hin _]. apply in_rev in Hin.
    rewrite Forall_forall in Hev. specialize (Hev e Hin).
    split; [now apply TrackerProps.observed_in_sections with document|].
    right. exists (target e).
    split; [now apply observed_in_document|split; [exact Hev|reflexivity]].
Qed.

(** X7. A section that the document lacks is never reported: in every reachable
    state the current-section label is the initial "home" or the id of an
    element present in the document. *)
Theorem missing_section_never_current (document : list Element) (p : Page) :
  reachable document p ->
  activeSection p = "home" \/
  exists el, In el document /\ id el = activeSection p.
Proof.
  intros H. destruct (active_section_origin document p H) as [_ [Hh|Ho]].
  - now left.
  - right. destruct Ho as (el & Hin & _ & Hid). now exists el.
Qed.

(** A document that only has the "skills" section. *)
Lemma missing_section_witness :
  let document := [mkElement "skills"] in
  let p := handle initial
             (Intersect [mkEntry (mkElement "skills") true (1 # 2)]) in
  activeSection p = "home" \/
  exists el, In el document /\ id el = activeSection p.
Proof.
  intros document p. apply (missing_section_never_current document).
  apply reach_step; [apply reach_initial|].
  cbn. constructor; [|constructor]. cbn. now left.
Defined.

(** X8. Deliveries compose and repeat harmlessly: a batch delivered in two parts
    gives the state of the whole batch, and delivering a batch a second time
    changes nothing. *)
Theorem deliveries_compose (es1 es2 : list Entry) (p : Page) :
  onIntersect (es1 ++ es2) p = onIntersect es2 (onIntersect es1 p) /\
  onIntersect es1 (onIntersect es1 p) = onIntersect es1 p.
Proof.
  split; [apply TrackerProps.onIntersect_app|].
  pose proof (TrackerProps.onIntersect_frame es1 p) as Hq.
  pose proof (TrackerProps.onIntersect_last es1 p) as Ha.
  set (q := onIntersect es1 p) in *.
  pose proof (TrackerProps.onIntersect_frame es1 q) as Hq2.
  pose proof (TrackerProps.onIntersect_last es1 q) as Ha2.
  rewrite Hq2, Ha2.
  destruct (find over_threshold (rev es1)) as [e|].
  - rewrite Hq at 2. rewrite Ha. rewrite Hq. reflexivity.
  - rewrite Hq at 2. rewrite Ha. rewrite Hq. rewrite Ha. reflexivity.
Qed.

End PageInvariants.

(** ** Navbar *)

Module NavbarProps.
Import PageShell Navbar.
Local Open Scope string_scope.
Local Open Scope list_scope.

Example lower_case_of_link : toLowerCase "Experience" = "experience".
Proof. reflexivity. Qed.

(** The links, lower-cased, are the ids the tracker looks up. *)
Lemma links_are_sections : map toLowerCase links = sections.
Proof. reflexivity. Qed.

(** X9. Exactly one link is drawn as active: in every reachable state of the
    page the current-section label equals the lower-cased text of one and
    only one of the six links of the navigation bar. *)
Theorem exactly_one_link_highlighted (document : list Element) (p : Page) :
  reachable document p ->
  exists l, filter (highlighted (activeSection p)) links = [l] /\
            toLowerCase l = activeSection p.
Proof.
  intros H.
  destruct (PageInvariants.active_section_origin document p H) as [Hin _].
  unfold sections in Hin. cbn [In] in Hin.
  destruct Hin as [E|[E|[E|[E|[E|[E|[]]]]]]]; rewrite <- E.
  - now exists "Home".
  - now exists "About".
  - now exists "Skills".
  - now exists "Experience".
  - now exists "Projects".
  - now exists "Contact".
Qed.

(** The page after the "projects" section came into view. *)
Lemma exactly_one_link_witness :
  let p := handle initial
             (Intersect [mkEntry (mkElement "projects") true (1 # 2)]) in
  exists l, filter (highlighted (activeSection p)) links = [l] /\
            toLowerCase l = activeSection p.
Proof.
  intros p. apply (exactly_one_link_highlighted [mkElement "projects"]).
  apply reach_step; [apply reach_initial|].
  cbn. constructor; [|constructor]. cbn. now left.
Defined.

(** X10. A click on a link closes the menu and scrolls to the element whose id is
    the lower-cased link text; that element is one the section tracker
    observes, so arriving there can be reported.  When the document has no
    such element nothing is scrolled.  Every observed element is the target
    of one of the links. *)
Theorem links_scroll_to_observed_sections
  (document : list Element) (l : string) (n : Nav) :
  In l links ->
  menuOpen (fst (scrollTo document l n)) = false /\
  scrolled (fst (scrollTo document l n)) = scrolled n /\
  (forall el, snd (scrollTo document l n) = Some el ->
     id el = toLowerCase l /\ In el document /\ In el (observed document)) /\
  (snd (scrollTo document l n) = None ->
     forall el, In el document -> id el <> toLowerCase l) /\
  (forall el, In el (observed document) ->
     exists l', In l' links /\ snd (scrollTo document l' n) = Some el).
Proof.
  intros Hl. do 2 (split; [reflexivity|]).
  assert (Hs : In (toLowerCase l) sections).
  { rewrite <- links_are_sections. now apply in_map. }
  cbn [snd scrollTo]. split; [|split].
  - intros el Hel. unfold getElementById in Hel.
    pose proof (find_some _ _ Hel) as [Hin Hid].
    apply String.eqb_eq in Hid. split; [exact Hid|]. split; [exact Hin|].
    unfold observed. apply in_flat_map. exists (toLowerCase l).
    split; [exact Hs|]. unfold getElementById. rewrite Hel. now left.
  - intros Hnone el Hin Hid. unfold getElementById in Hnone.
    pose proof (find_none _ _ Hnone el Hin) as Hf. cbn in Hf.
    apply String.eqb_neq in Hf. contradiction.
  - intros el Hel. unfold observed in Hel. apply in_flat_map in Hel.
    destruct Hel as (i & Hi & Hel).
    destruct (getElementById document i) as [el'|] eqn:G; [|contradiction].
    destruct Hel as [<-|[]].
    rewrite <- links_are_sections in Hi. apply in_map_iff in Hi.
    destruct Hi as (l' & <- & Hl'). now exists l'.
Qed.

(** The "Skills" link on a document with two sections. *)
Lemma links_scroll_witness :
  snd (scrollTo [mkElement "home"; mkElement "skills"] "Skills" (mkNav true true))
    = Some (mkElement "skills") /\
  menuOpen (fst (scrollTo [mkElement "home"; mkElement "skills"] "Skills"
                          (mkNav true true))) = false.
Proof.
  pose proof (links_scroll_to_observed_sections
                [mkElement "home"; mkElement "skills"] "Skills"
                (mkNav true true)
                (or_intror (or_intror (or_introl eq_refl)))) as H.
  split; [reflexivity|apply H].
Defined.

End NavbarProps.

(** ** StatCounter: duration, order and the reveal hook *)

Module CounterExtra.
Import StatCounter StatCounterProps CounterComponent.
Local Open Scope Z_scope.



(** X12. The number shown never goes down: for a target that is not negative the
    values displayed along the firings are non-decreasing. *)
Theorem counter_display_monotone (value : Z) (m n : nat) :
  0 <= value -> (m <= n)%nat ->
  count (ticks value m) <= count (ticks value n).
Proof.
  intros Hv Hmn. pose proof (step_ge_1 value) as Hs.
  assert (Hle : forall k, count (ticks value k) <= value).
  { intros k. destruct (Z.eq_dec value 0) as [->|Hne].
    - destruct k as [|k]; [cbn; lia|].
      assert (H1 : last_tick 0 = 1%nat) by reflexivity.
      rewrite (ticks_after_last 0 (S k)) by lia.
      rewrite ticks_last. cbn [count]. lia.
    - apply count_le_target. lia. }
  destruct (Nat.lt_ge_cases n (last_tick value)) as [Hn|Hn].
  - destruct (ticks_below value n (before_last_tick value n Hn)) as (_ & _ & ->).
    assert (Hm : (m < last_tick value)%nat) by lia.
    destruct (ticks_below value m (before_last_tick value m Hm)) as (_ & _ & ->).
    nia.
  - rewrite (ticks_after_last value n Hn), ticks_last. cbn [count]. apply Hle.
Qed.

Lemma counter_display_monotone_witness :
  count (ticks 100 10) <= count (ticks 100 34).
Proof.
  apply (counter_display_monotone 100 10 34); [discriminate|].
  repeat constructor.
Defined.

(** X13. A target that is zero or negative is shown on the first firing, which
    also clears the interval: the counter goes from 0 straight to the
    target. *)
Theorem counter_non_positive_target (value : Z) :
  value <= 0 ->
  step value = 1 /\
  ticks value 1 = mkCounter value 1 false /\
  (forall n, (1 <= n)%nat -> count (ticks value n) = value).
Proof.
  intros Hv.
  assert (Hstep : step value = 1).
  { unfold step. pose proof (ceil_div_nonpos value 40 ltac:(lia) Hv). lia. }
  assert (H1 : ticks value 1 = mkCounter value 1 false).
  { unfold ticks. cbn [Nat.iter nat_rect effect unseen]. unfold tick.
    cbn [timer start]. rewrite Hstep.
    destruct (Z.geb_spec (0 + 1) value); [reflexivity|lia]. }
  split; [exact Hstep|]. split; [exact H1|].
  intros n Hn.
  replace n with ((n - 1) + 1)%nat by lia.
  unfold ticks. rewrite Nat.iter_add. fold (ticks value 1). rewrite H1.
  now rewrite iter_tick_cleared.
Qed.

Lemma counter_non_positive_witness : ticks (-5) 1 = mkCounter (-5) 1 false.
Proof. apply (counter_non_positive_target (-5)). discriminate. Defined.

(** *** The counter behind its reveal hook *)

Lemma on_revealed (value : Z) (c : StatCounter.counter) (evs : list Ev) :
  fold_left (on value) evs (mkMounted true c) =
  mkMounted true (Nat.iter (fires evs) (tick value) c).
Proof.
  revert c. induction evs as [|ev evs IH]; intros c; [reflexivity|].
  destruct ev as [entries|]; cbn [fold_left on visible CounterComponent.counter].
  - rewrite RevealProps.callback_set. cbn [Bool.eqb]. apply IH.
  - rewrite IH. cbn [fires]. now rewrite Nat.iter_succ_r.
Qed.

(** X14. One shot, and not before the reveal: whatever the order of observer
    deliveries and interval firings, the counter is untouched (0, no
    interval) until the first qualifying delivery, and from then on it is
    the counter after as many firings as happened since; later deliveries
    neither restart nor disturb it. *)
Theorem counter_starts_once_at_reveal (value : Z) (evs : list Ev) :
  fold_left (on value) evs first_render =
  match fires_after_reveal evs with
  | None => first_render
  | Some k => mkMounted true (ticks value k)
  end.
Proof.
  induction evs as [|ev evs IH]; [reflexivity|].
  destruct ev as [entries|]; cbn [fold_left fires_after_reveal].
  - unfold on at 2. cbn [visible first_render Reveal.mounted].
    rewrite RevealProps.callback_qualifies. cbn [orb].
    destruct (Reveal.qualifies entries); cbn [Bool.eqb].
    + cbn [CounterComponent.counter effect_cleanup effect unseen].
      apply on_revealed.
    + exact IH.
  - exact IH.
Qed.

Example counter_behind_reveal :
  let hidden := mkEntry (mkElement "about") false 0 in
  let shown := mkEntry (mkElement "about") true 1 in
  fold_left (on 7)
    [Fire; Observe [hidden]; Fire; Observe [shown]; Fire; Fire;
     Observe [hidden]; Observe [shown]; Fire]
    first_render
  = mkMounted true (mkCounter 3 3 true).
Proof. reflexivity. Qed.

End CounterExtra.

(** ** ThreeScene: runs of a mounted scene *)

Module SceneExtra.
Import Scene SceneRun.
Local Open Scope string_scope.
Local Open Scope list_scope.
Local Open Scope R_scope.

(** *** What a frame does *)

Lemma fixtures_scene_remove (l : Line) (ch : list Child) :
  fixtures (scene_remove l ch) = fixtures ch.
Proof.
  induction ch as [|c ch IH]; [reflexivity|].
  cbn [scene_remove]. destruct c as [s|l']; cbn [same_line].
  - unfold fixtures in *. cbn [flat_map app]. f_equal. exact IH.
  - destruct (Nat.eqb (line_geometry l') (line_geometry l)); [reflexivity|].
    exact IH.
Qed.

Lemma fixtures_scene_remove_all (ls : list Line) (ch : list Child) :
  fixtures (fold_left (fun ch l => scene_remove l ch) ls ch) = fixtures ch.
Proof.
  revert ch. induction ls as [|l ls IH]; intros ch; [reflexivity|].
  cbn [fold_left]. rewrite IH. apply fixtures_scene_remove.
Qed.

(** [updateConnections] in closed form, whatever the lines were before. *)
Lemma updateConnections_result (i : Instance) (h : Heap) :
  let new := lines_for (nodes i) (length h)
               (filter (within_reach (nodes i)) (pairs (length (nodes i)))) in
  exists ch,
    updateConnections i h = (with_lines i ch new, h ++ line_resources new) /\
    fixtures ch = fixtures (children i).
Proof.
  unfold updateConnections.
  rewrite ConnectorProps.connect_all_pairs, ConnectorProps.fold_connect_pair.
  cbv zeta. cbn [app]. eexists. split; [reflexivity|].
  rewrite ConnectorProps.fixtures_app, ConnectorProps.fixtures_map_Segment.
  now rewrite app_nil_r, fixtures_scene_remove_all.
Qed.

Lemma animate_result (elapsed : R) (i : Instance) (e : Env) :
  exists ch ls extra,
    animate elapsed i e =
      (with_lines (animate_objects elapsed (next_frame e) i) ch ls,
       mkEnv (listeners e) (frames e ++ [next_frame e]) (S (next_frame e))
             (heap e ++ extra) (container e)) /\
    fixtures ch = fixtures (children i) /\
    ((ls = connectionLines i /\ extra = []) \/
     (let ns := map (animate_node elapsed) (nodes i) in
      ls = lines_for ns (length (heap e))
             (filter (within_reach ns) (pairs (length ns))) /\
      extra = line_resources ls)).
Proof.
  unfold animate. destruct (connections_due elapsed).
  - destruct (updateConnections_result
                (animate_objects elapsed (next_frame e) i) (heap e))
      as (ch & -> & Hfix).
    eexists ch, _, _. split; [reflexivity|]. split; [exact Hfix|].
    right. split; reflexivity.
  - exists (children i), (connectionLines i), []. rewrite app_nil_r.
    split; [reflexivity|]. split; [reflexivity|]. now left.
Qed.

Lemma animate_outcome (elapsed : R) (i : Instance) (e : Env) :
  frame_outcome elapsed i (fst (animate elapsed i e)).
Proof.
  destruct (animate_result elapsed i e) as (ch & ls & extra & -> & Hfix & Hls).
  exists (next_frame e), ch, ls, (length (heap e)).
  split; [reflexivity|]. split; [exact Hfix|].
  destruct Hls as [[-> _]|[-> _]]; [now left|now right].
Qed.

Lemma started_mount (t : Theme) (random : nat -> R) (elapsed0 : R) :
  mount t true random elapsed0 empty_env =
  (Some (fst (started t random elapsed0)), snd (started t random elapsed0)).
Proof.
  unfold started, mount.
  now destruct (animate elapsed0 _ _) as [i e].
Qed.

Lemma started_outcome (t : Theme) (random : nat -> R) (elapsed0 : R) :
  frame_outcome elapsed0 (built random 0 t) (fst (started t random elapsed0)).
Proof.
  unfold started, mount. cbn [length heap empty_env].
  match goal with
  | |- context [animate elapsed0 ?b ?e1] =>
      pose proof (animate_outcome elapsed0 b e1) as H;
      destruct (animate elapsed0 b e1) as [i e]
  end.
  exact H.
Qed.

(** Induction over the runs of a mounted scene, for properties of its
    variables. *)
Lemma play_instance_ind (Q : SceneEvent -> Prop) (P : Instance -> Prop)
  (t : Theme) (random : nat -> R) (elapsed0 : R) :
  (forall i', frame_outcome elapsed0 (built random 0 t) i' -> P i') ->
  (forall elapsed i i', P i -> frame_outcome elapsed i i' -> P i') ->
  (forall fx fy i, Q (PointerAt fx fy) -> P i -> P (onMouseMove fx fy i)) ->
  forall evs, Forall Q evs -> P (fst (play t random elapsed0 evs)).
Proof.
  intros Hbase Hframe Hptr evs. induction evs as [|ev evs IH] using rev_ind.
  - intros _. apply Hbase, started_outcome.
  - intros HQ. apply Forall_app in HQ. destruct HQ as [HQ Hev].
    specialize (IH HQ). unfold play in *. rewrite fold_left_app.
    cbn [fold_left]. destruct ev as [elapsed n|fx fy]; cbn [scene_step fst].
    + unfold frame. destruct (existsb (Nat.eqb n) _); [|exact IH].
      eapply Hframe; [exact IH|apply animate_outcome].
    + apply Hptr; [now inversion Hev|exact IH].
Qed.

Lemma Forall_always {A : Type} (l : list A) : Forall (fun _ => True) l.
Proof. induction l; constructor; auto. Qed.

(** *** Nodes *)


Lemma outcome_nodes (elapsed : R) (i i' : Instance) :
  frame_outcome elapsed i i' ->
  nodes i' = map (animate_node elapsed) (nodes i).
Proof. intros (id & ch & ls & k & -> & _). reflexivity. Qed.






(** *** Floating shapes and lights *)







(** *** Pointer and camera *)

Lemma outcome_camera (elapsed : R) (i i' : Instance) :
  frame_outcome elapsed i i' ->
  let mouseX := fst (mouse i) + (fst (targetMouse i) - fst (mouse i)) * 0.05 in
  let mouseY := snd (mouse i) + (snd (targetMouse i) - snd (mouse i)) * 0.05 in
  mouse i' = (mouseX, mouseY) /\ targetMouse i' = targetMouse i /\
  camera i' = vec3 (vx (camera i) + (mouseX * 2 - vx (camera i)) * 0.02)
                   (vy (camera i) + (mouseY * 1.5 + 1 - vy (camera i)) * 0.02)
                   (vz (camera i)).
Proof. intros (id & ch & ls & k & -> & _). repeat split. Qed.

Lemma camera_step (elapsed : R) (i i' : Instance) :
  camera_in_box i -> frame_outcome elapsed i i' -> camera_in_box i'.
Proof.
  intros ((Hmx & Hmy) & (Htx & Hty) & Hcx & Hcy & Hcz) H.
  destruct (outcome_camera _ _ _ H) as (Hm & Ht & Hc). cbv zeta in Hm, Hc.
  unfold camera_in_box. rewrite Hm, Ht, Hc. cbn [fst snd vx vy vz].
  repeat split; try lra.
Qed.

(** X19. The camera stays in its box: as long as the pointer is reported over
    the window, the smoothed pointer and its target stay in [[-1, 1]] on
    both axes and the camera stays within [[-2, 2]] horizontally and
    [[-0.5, 2.5]] vertically, at depth 6. *)
Theorem camera_stays_in_box
  (t : Theme) (random : nat -> R) (elapsed0 : R) (evs : list SceneEvent) :
  Forall inside_window evs ->
  camera_in_box (fst (play t random elapsed0 evs)).
Proof.
  apply (play_instance_ind inside_window camera_in_box).
  - intros i' H. apply (camera_step elapsed0 (built random 0 t)); [|exact H].
    unfold camera_in_box. cbn. repeat split; lra.
  - intros elapsed i i' Hi H. now apply (camera_step elapsed i).
  - intros fx fy i [Hfx Hfy] ((Hmx & Hmy) & _ & Hc).
    unfold camera_in_box. cbn [onMouseMove mouse targetMouse camera fst snd].
    repeat split; try tauto; lra.
Qed.

(** The pointer in the middle of the window, then in a corner. *)
Lemma camera_stays_in_box_witness :
  camera_in_box
    (fst (play dark (fun _ => 0) 0
            [PointerAt 0.5 0.5; Frame 0.016 0; PointerAt 1 0; Frame 0.033 1])).
Proof.
  apply camera_stays_in_box.
  repeat constructor; cbn; lra.
Defined.

(** *** The objects of the scene *)

Lemma indexed_length {A : Type} (l : list A) : length (indexed l) = length l.
Proof.
  unfold indexed. rewrite length_combine, length_seq. apply Nat.min_id.
Qed.

Lemma outcome_objects (elapsed : R) (i i' : Instance) :
  frame_outcome elapsed i i' ->
  isDark i' = isDark i /\ renderer i' = renderer i /\
  lineMaterial i' = lineMaterial i /\
  fixtures (children i') = fixtures (children i) /\
  length (rings i') = length (rings i) /\
  length (nodes i') = length (nodes i) /\
  length (floatingShapes i') = length (floatingShapes i) /\
  particles i' = particles i.
Proof.
  intros (id & ch & ls & k & -> & Hfix & _).
  cbn [with_lines animate_objects isDark renderer lineMaterial children rings
       nodes floatingShapes particles].
  rewrite !length_map, indexed_length. repeat split. exact Hfix.
Qed.

(** X20. The set of objects is fixed for the life of a mount: in every state the
    scene has its three rings, twelve nodes, six floating shapes and the
    particles uploaded at mount (500 in the dark theme, 300 in the light
    one); the children of the scene graph other than lines are those added
    at mount; the renderer and the line material are the ones created
    there. *)
Theorem scene_objects_fixed
  (t : Theme) (random : nat -> R) (elapsed0 : R) (evs : list SceneEvent) :
  same_objects t random (fst (play t random elapsed0 evs)).
Proof.
  assert (Hstep : forall elapsed i i',
             same_objects t random i -> frame_outcome elapsed i i' ->
             same_objects t random i').
  { intros elapsed i i' (H1 & H2 & H3 & H4 & H5 & H6 & H7 & H8 & H9) H.
    destruct (outcome_objects _ _ _ H)
      as (E1 & E2 & E3 & E4 & E5 & E6 & E7 & E8).
    unfold same_objects. cbv zeta.
    rewrite E1, E2, E3, E4, E5, E6, E7, E8. repeat split; assumption. }
  apply (play_instance_ind (fun _ => True) (same_objects t random));
    [| | |apply Forall_always].
  - intros i' H. apply (Hstep elapsed0 (built random 0 t)); [|exact H].
    unfold same_objects. cbv zeta. repeat split.
    cbn [particles built isDark]. now rewrite length_map, length_seq.
  - exact Hstep.
  - intros fx fy i _ H. exact H.
Qed.

Lemma lines_for_opacity (ns : list Node) (k : nat) (ps : list (nat * nat)) :
  Forall (fun l => 0 < opacity l <= 0.15)
         (lines_for ns k (filter (within_reach ns) ps)).
Proof.
  revert k. induction ps as [|p ps IH]; intros k; [constructor|].
  cbn [filter]. destruct (within_reach ns p) eqn:E; [|apply IH].
  cbn [lines_for]. constructor; [|apply IH].
  cbn [opacity]. apply ConnectorProps.within_reach_spec in E.
  assert (H0 : 0 <= pair_distance ns p) by (unfold pair_distance, distanceTo; apply sqrt_pos).
  unfold line_opacity. lra.
Qed.

Lemma pairs_12 : length (pairs 12) = 66%nat.
Proof. reflexivity. Qed.

(** X21. The connector lines are few and faint: in every state of a mounted
    scene there are at most 66 lines (one per pair of the twelve nodes) and
    the opacity of each is positive and at most 0.15. *)
Theorem connector_lines_bounded
  (t : Theme) (random : nat -> R) (elapsed0 : R) (evs : list SceneEvent) :
  lines_bounded (fst (play t random elapsed0 evs)).
Proof.
  assert (Hstep : forall elapsed i i',
             lines_bounded i -> frame_outcome elapsed i i' ->
             lines_bounded i').
  { intros elapsed i i' (Hn & Hlen & Hop) H.
    pose proof (outcome_nodes _ _ _ H) as Hnodes.
    destruct H as (id & ch & ls & k & -> & _ & Hls).
    unfold lines_bounded. cbn [with_lines nodes connectionLines] in *.
    split; [now rewrite Hnodes, length_map|].
    destruct Hls as [->|Hls].
    - split; [exact Hlen|exact Hop].
    - cbv zeta in Hls. rewrite Hls. split; [|apply lines_for_opacity].
      rewrite ConnectorProps.lines_for_length, length_map, Hn.
      pose proof (filter_length_le
                    (within_reach (map (animate_node elapsed) (nodes i)))
                    (pairs 12)) as Hf.
      rewrite pairs_12 in Hf. exact Hf. }
  apply (play_instance_ind (fun _ => True) lines_bounded);
    [| | |apply Forall_always].
  - intros i' H. apply (Hstep elapsed0 (built random 0 t)); [|exact H].
    unfold lines_bounded. cbn [nodes connectionLines built].
    rewrite length_map, length_seq.
    split; [reflexivity|]. split; [cbn; lia|constructor].
  - exact Hstep.
  - intros fx fy i _ H. exact H.
Qed.

(** *** Particles *)




(** *** Resources of replaced lines *)

Lemma retained_line_resources (ls : list Line) :
  retained (line_resources ls) = line_resources ls.
Proof.
  induction ls as [|l ls IH]; [reflexivity|].
  change (line_resources (l :: ls))
    with (fresh Geometry "BufferGeometry"
          :: fresh Material "LineBasicMaterial" :: line_resources ls).
  unfold retained in *. cbn [filter disposed fresh negb]. now rewrite IH.
Qed.

(** X23. A recomputation releases nothing: [updateConnections] leaves every
    resource on the heap as it was, the geometries and materials of the
    lines it takes out of the scene included, and adds a geometry and a
    material for each new line, so that the retained resources grow by two
    per line at every recomputation. *)
Theorem updateConnections_releases_nothing (i : Instance) (h : Heap) :
  let r := updateConnections i h in
  snd r = h ++ line_resources (connectionLines (fst r)) /\
  retained (snd r) = retained h ++ line_resources (connectionLines (fst r)) /\
  length (retained (snd r)) =
    (length (retained h) + 2 * length (connectionLines (fst r)))%nat.
Proof.
  destruct (updateConnections_result i h) as (ch & E & _). cbv zeta in *.
  rewrite E. cbn [fst snd with_lines connectionLines].
  split; [reflexivity|].
  rewrite LifecycleProps.retained_app, retained_line_resources.
  split; [reflexivity|].
  now rewrite length_app, ConnectorProps.line_resources_length.
Qed.

(** *** Unmounting at any time *)

Lemma lines_for_beyond (ns : list Node) (k : nat) (ps : list (nat * nat)) :
  (50 <= k)%nat ->
  Forall (fun l => (50 <= line_geometry l)%nat /\
                   line_material l = S (line_geometry l))
         (lines_for ns k ps).
Proof.
  intros Hk. apply Forall_forall. intros l Hl.
  destruct (ConnectorProps.lines_for_ids _ _ _ _ Hl) as [Hb Hm].
  split; [lia|exact Hm].
Qed.

Lemma allocations_length : length allocations = 50%nat.
Proof. reflexivity. Qed.

Lemma mounted_env_animate (elapsed : R) (i : Instance) (e : Env) :
  listeners e =
    [("mousemove", handleMouseMove 0); ("resize", handleResize 0)] ->
  container e = [0%nat] -> renderer i = 0%nat -> frames e = [] ->
  (exists rest, heap e = allocations ++ rest) ->
  Forall (fun l => (50 <= line_geometry l)%nat /\
                   line_material l = S (line_geometry l))
         (connectionLines i) ->
  mounted_env (animate elapsed i e).
Proof.
  intros Hl Hc Hr Hf (rest & Hh) Hlines.
  destruct (animate_result elapsed i e) as (ch & ls & extra & -> & _ & Hls).
  unfold mounted_env.
  cbn [fst snd listeners container frames heap with_lines animate_objects
       renderer animId connectionLines].
  split; [exact Hl|]. split; [exact Hc|]. split; [exact Hr|].
  split; [exists (next_frame e); now rewrite Hf|].
  split; [exists (rest ++ extra); now rewrite Hh, app_assoc|].
  destruct Hls as [[-> _]|[-> _]]; [exact Hlines|].
  apply lines_for_beyond. rewrite Hh, length_app, allocations_length. lia.
Qed.

Lemma started_mounted_env (t : Theme) (random : nat -> R) (elapsed0 : R) :
  mounted_env (started t random elapsed0).
Proof.
  unfold started, mount. cbn [length heap empty_env].
  match goal with
  | |- context [animate elapsed0 ?b ?e1] =>
      destruct (animate_result elapsed0 b e1)
        as (ch & ls & extra & -> & _ & Hls)
  end.
  unfold mounted_env.
  cbn [fst snd listeners container frames heap with_lines animate_objects
       renderer animId connectionLines next_frame built].
  split; [reflexivity|]. split; [reflexivity|]. split; [reflexivity|].
  split; [now exists 0%nat|].
  split; [now exists extra|].
  destruct Hls as [[-> _]|[-> _]]; [constructor|].
  apply lines_for_beyond. apply Nat.leb_le. reflexivity.
Qed.

Lemma play_mounted_env
  (t : Theme) (random : nat -> R) (elapsed0 : R) (evs : list SceneEvent) :
  mounted_env (play t random elapsed0 evs).
Proof.
  induction evs as [|ev evs IH] using rev_ind.
  - apply started_mounted_env.
  - unfold play in *. rewrite fold_left_app. cbn [fold_left].
    set (s := fold_left scene_step evs (started t random elapsed0)) in *.
    destruct IH as (Hl & Hc & Hr & (k & Hf & Ha) & Hh & Hlines).
    destruct ev as [elapsed n|fx fy]; cbn [scene_step].
    + unfold frame. rewrite Hf. cbn [existsb orb].
      destruct (Nat.eqb n k) eqn:E.
      * cbn [filter]. apply Nat.eqb_eq in E. subst n.
        rewrite Nat.eqb_refl. cbn [negb].
        apply mounted_env_animate; trivial.
      * unfold mounted_env. repeat split; trivial. now exists k.
    + unfold mounted_env. cbn [fst snd onMouseMove renderer animId
                                 connectionLines].
      repeat split; trivial. now exists k.
Qed.

Lemma dispose_beyond (a rest : Heap) (j : nat) :
  (length a <= j)%nat ->
  dispose j (a ++ rest) = a ++ dispose (j - length a) rest.
Proof.
  revert j. induction a as [|x a IH]; intros j Hj.
  - cbn. now rewrite Nat.sub_0_r.
  - destruct j as [|j]; [cbn in Hj; lia|].
    cbn [app dispose length Nat.sub]. rewrite IH by (cbn in Hj; lia).
    reflexivity.
Qed.

Lemma dispose_lines_beyond (a : Heap) (ls : list Line) (rest : Heap) :
  Forall (fun l => (length a <= line_geometry l)%nat /\
                   line_material l = S (line_geometry l)) ls ->
  exists rest',
    fold_left (fun h l => dispose (line_material l)
                            (dispose (line_geometry l) h))
              ls (a ++ rest) = a ++ rest'.
Proof.
  revert rest. induction ls as [|l ls IH]; intros rest H.
  - now exists rest.
  - inversion H as [|? ? [Hg Hm] Hrest]; subst. cbn [fold_left].
    rewrite dispose_beyond by exact Hg.
    rewrite dispose_beyond by (rewrite Hm; lia).
    apply IH. exact Hrest.
Qed.

(** X24. Unmounting at any time undoes the registrations: whatever frames and
    pointer moves a mounted scene has seen, its cleanup leaves no listener
    on the window, no pending frame and no canvas in the container, and no
    frame callback runs on the scene afterwards. *)
Theorem unmount_any_time_deregisters
  (t : Theme) (random : nat -> R) (elapsed0 : R) (evs : list SceneEvent) :
  let s := play t random elapsed0 evs in
  let e2 := cleanup (fst s) (snd s) in
  listeners e2 = [] /\ frames e2 = [] /\ container e2 = [] /\
  (forall elapsed n, frame elapsed n (fst s) e2 = (fst s, e2)).
Proof.
  intros s e2.
  destruct (play_mounted_env t random elapsed0 evs)
    as (Hl & Hc & Hr & (k & Hf & Ha) & _ & _).
  fold s in Hl, Hc, Hr, Hf, Ha.
  assert (H1 : listeners e2 = []).
  { unfold e2, cleanup. cbn [listeners]. now rewrite Hl, Hr. }
  assert (H2 : frames e2 = []).
  { unfold e2, cleanup. cbn [frames]. rewrite Hf, Ha.
    cbn. now rewrite Nat.eqb_refl. }
  assert (H3 : container e2 = []).
  { unfold e2, cleanup. cbn [container]. now rewrite Hc, Hr. }
  repeat split; trivial.
  intros elapsed n. unfold frame. now rewrite H2.
Qed.

(** X25. Unmounting at any time leaves the objects of the mount retained: after
    the cleanup of a mounted scene, whenever it runs, the renderer is
    released and the 24 geometries and 25 materials created at mount are
    still on the heap, unreleased. *)
Theorem unmount_any_time_retains
  (t : Theme) (random : nat -> R) (elapsed0 : R) (evs : list SceneEvent) :
  let s := play t random elapsed0 evs in
  let e2 := cleanup (fst s) (snd s) in
  exists rest,
    heap e2 = dispose 0 allocations ++ rest /\
    retained (heap e2) = tl allocations ++ retained rest /\
    (49 <= length (retained (heap e2)))%nat.
Proof.
  intros s e2.
  destruct (play_mounted_env t random elapsed0 evs)
    as (_ & _ & Hr & _ & (rest & Hh) & Hlines).
  fold s in Hr, Hh, Hlines.
  destruct (dispose_lines_beyond allocations (connectionLines (fst s)) rest)
    as (rest' & E).
  { rewrite allocations_length. exact Hlines. }
  exists rest'.
  assert (Hheap : heap e2 = dispose 0 allocations ++ rest').
  { unfold e2, cleanup. cbn [heap]. rewrite Hr, Hh, E. reflexivity. }
  split; [exact Hheap|].
  assert (Hret : retained (heap e2) = tl allocations ++ retained rest').
  { rewrite Hheap, LifecycleProps.retained_app. reflexivity. }
  split; [exact Hret|].
  rewrite Hret, length_app. cbn [tl allocations]. cbn. lia.
Qed.

(** *** The cadence of recomputation *)




(** *** Mounting again and again *)








End SceneExtra.
